(** * mix_link: a shallow embedding of the handshake builder, the peer
    authenticator and the blocking session of the mix_link crate
    (src/src/constants.rs, src/src/messages.rs, src/src/sync.rs). *)

From stdpp Require Import base gmap list.
From Stdlib Require Import ZArith Lia.

Open Scope Z_scope.

(** ** Rust results and panics *)

(** A Rust call either returns [Ok], returns [Err], or panics (an
    [unwrap] on [None]/[Err], an [assert_eq!] failure, an out-of-range
    slice).  A panic is modelled as its own outcome. *)
Inductive rust_result (A E : Type) : Type :=
| Ok (a : A)
| Err (e : E)
| Panic.
Arguments Ok {A E} a.
Arguments Err {A E} e.
Arguments Panic {A E}.

(** ** constants.rs *)

Definition PROLOGUE : list Z := [1].
Definition PROLOGUE_SIZE : nat := 1.
Definition NOISE_MESSAGE_MAX_SIZE : nat := 65535.
Definition KEY_SIZE : nat := 32.
Definition MAC_SIZE : nat := 16.
Definition MAX_ADDITIONAL_DATA_SIZE : nat := 255.
Definition AUTH_MESSAGE_SIZE : nat := 1 + 8 + MAX_ADDITIONAL_DATA_SIZE.
Definition NOISE_HANDSHAKE_MESSAGE1_SIZE : nat := 1600 + PROLOGUE_SIZE.
Definition NOISE_HANDSHAKE_MESSAGE2_SIZE : nat := 1680 + AUTH_MESSAGE_SIZE.
Definition NOISE_HANDSHAKE_MESSAGE3_SIZE : nat := 328.
Definition NOISE_MESSAGE_HEADER_SIZE : nat := MAC_SIZE + 4.

(** Modelled from the spec: [HEADER_SIZE], imported by messages.rs from
    constants.rs but absent from the constants.rs under src/, is the
    4-byte big-endian plaintext length of the transport header (spec
    4.4; messages.rs asserts the decrypted header has 4 bytes). *)
Definition HEADER_SIZE : nat := 4.

(** sync.rs *)
Definition MAC_LEN : nat := 16.
Definition MAX_MSG_LEN : nat := 1048576.

(** ** byteorder::BigEndian on u32 *)

Definition write_u32 (v : Z) : list Z :=
  [Z.land (Z.shiftr v 24) 255; Z.land (Z.shiftr v 16) 255;
   Z.land (Z.shiftr v 8) 255; Z.land v 255].

(** [BigEndian::read_u32] reads the first four bytes and panics on a
    shorter slice. *)
Definition read_u32 (b : list Z) : option Z :=
  match b with
  | b0 :: b1 :: b2 :: b3 :: _ =>
      Some (Z.lor (Z.shiftl b0 24) (Z.lor (Z.shiftl b1 16) (Z.lor (Z.shiftl b2 8) b3)))
  | _ => None
  end.

(** A byte array of [n] zeros into which a Noise call wrote [out]. *)
Definition buffer_after (n : nat) (out : list Z) : list Z :=
  out ++ repeat 0 (n - length out)%nat.

(** ** AuthenticateMessage (messages.rs) *)

Inductive AuthenticationError := InvalidSize.

Record AuthenticateMessage := {
  ad : list Z;
  unix_time : Z  (* u32: seconds since the unix epoch *)
}.

(** [from_bytes]: the length check, then [b[0] as usize],
    [b[1..=ad_len]] (panics when [ad_len + 1 > b.len()]) and
    [read_u32(&b[1+MAX_ADDITIONAL_DATA_SIZE..])]. *)
Definition AuthenticateMessage_from_bytes (b : list Z)
  : rust_result AuthenticateMessage AuthenticationError :=
  if negb (Nat.eqb (length b) AUTH_MESSAGE_SIZE) then Err InvalidSize
  else
    let ad_len := Z.to_nat (hd 0 b) in
    if Nat.ltb (length b) (ad_len + 1) then Panic
    else
      match read_u32 (skipn (1 + MAX_ADDITIONAL_DATA_SIZE) b) with
      | None => Panic
      | Some t =>
          Ok {| ad := firstn ad_len (skipn 1 b); unix_time := t |}
      end.

(** [to_vec]: length byte ([len() as u8]), the data, zero padding up to
    [MAX_ADDITIONAL_DATA_SIZE] bytes, then the big-endian u32 time. *)
Definition AuthenticateMessage_to_vec (m : AuthenticateMessage)
  : rust_result (list Z) AuthenticationError :=
  if Nat.ltb MAX_ADDITIONAL_DATA_SIZE (length (ad m)) then Err InvalidSize
  else
    let zero_bytes := repeat 0 MAX_ADDITIONAL_DATA_SIZE in
    Ok ([Z.of_nat (length (ad m)) mod 256] ++ ad m
        ++ firstn (length zero_bytes - length (ad m)) zero_bytes
        ++ write_u32 (unix_time m)).

(** [Option::is_some]. *)
Definition is_some {A} (o : option A) : bool :=
  match o with Some _ => true | None => false end.

(** ** Peer authenticator (messages.rs) *)

(** An x25519 public key: its 32 bytes; derived [PartialEq] and [Hash]
    compare the bytes. *)
Abbreviation PublicKey := (list Z).

Record PeerCredentials := {
  additional_data_of : list Z;
  public_key : PublicKey
}.

Definition PeerCredentials_wipe (c : PeerCredentials) : PeerCredentials :=
  {| additional_data_of := []; public_key := public_key c |}.

Record ServerAuthenticatorState := {
  server_mix_map : gmap PublicKey bool
}.

Record ProviderAuthenticatorState := {
  mix_map : gmap PublicKey bool;
  client_map : gmap PublicKey bool;
  from_client : bool;
  from_mix : bool
}.

Record ClientAuthenticatorState := {
  peer_public_key : PublicKey
}.

Inductive PeerAuthenticator :=
| Server (st : ServerAuthenticatorState)
| Provider (st : ProviderAuthenticatorState)
| Client (st : ClientAuthenticatorState).

Definition set_from_mix (st : ProviderAuthenticatorState) : ProviderAuthenticatorState :=
  {| mix_map := mix_map st; client_map := client_map st;
     from_client := from_client st; from_mix := true |}.

Definition set_from_client (st : ProviderAuthenticatorState) : ProviderAuthenticatorState :=
  {| mix_map := mix_map st; client_map := client_map st;
     from_client := true; from_mix := from_mix st |}.

(** [is_peer_valid(&mut self, ..) -> bool]: the authenticator after the
    call, and the returned boolean. *)
Definition is_peer_valid (a : PeerAuthenticator) (c : PeerCredentials)
  : PeerAuthenticator * bool :=
  match a with
  | Client st => (a, bool_decide (peer_public_key st = public_key c))
  | Server st => (a, is_some (server_mix_map st !! public_key c))
  | Provider st =>
      if is_some (mix_map st !! public_key c) then (Provider (set_from_mix st), true)
      else if is_some (client_map st !! public_key c) then (Provider (set_from_client st), true)
      else (a, false)
  end.

Definition is_peer_client (a : PeerAuthenticator) : bool :=
  match a with
  | Client _ => false
  | Server _ => false
  | Provider st => from_client st
  end.

(** ** Builder state *)

Inductive State :=
| Init
| SentClientHandshake1
| ReceivedServerHandshake1
| ReceivedClientHandshake1
| SentServerHandshake1
| DataTransfer
| Disconnected
| Invalid.

Global Instance State_eq_dec : EqDecision State.
Proof. solve_decision. Defined.

(** ** The Noise engine (the snow crate)

    The crate drives an external Noise library.  Its handshake and
    transport states are abstract; a call [write_message(payload, buf)]
    or [read_message(message, buf)] is given the capacity of [buf] and
    returns the new engine state and, on success, the bytes written to
    [buf[..len]]. *)
Class NoiseEngine (HS TS : Type) := {
  build_initiator : list Z -> PublicKey -> list Z -> option HS;
  build_responder : list Z -> list Z -> option HS;
  hs_write_message : HS -> list Z -> nat -> HS * option (list Z);
  hs_read_message : HS -> list Z -> nat -> HS * option (list Z);
  hs_get_remote_static : HS -> option (list Z);
  hs_into_transport_mode : HS -> option TS;
  ts_write_message : TS -> list Z -> nat -> TS * option (list Z);
  ts_read_message : TS -> list Z -> nat -> TS * option (list Z);
  ts_rekey_incoming : TS -> TS;
  ts_rekey_outgoing : TS -> TS
}.

(** Error enums (errors.rs is not under src/; these are the variants
    messages.rs and sync.rs name). *)
Inductive ClientHandshakeError :=
| Noise1WriteError | Noise2ReadError | ClientAuthenticationError
| FailedToGetRemoteStatic | Noise3WriteError.

Inductive ServerHandshakeError :=
| InvalidStateError | PrologueMismatchError | Noise1ReadError
| Noise2WriteError | Noise3ReadError | ServerAuthenticationError.

Inductive HandshakeError :=
| InvalidNoiseSpecError | NoPeerKeyError | SessionCreateError
| InvalidHandshakeFinalize | HandshakeNoiseError | HandshakeIOError
| ClientHandshakeFailure (e : ClientHandshakeError)
| ServerHandshakeFailure (e : ServerHandshakeError).

Inductive SendMessageError := InvalidMessageSize | EncryptFail | SendIOError.

Inductive ReceiveMessageError := DecryptFail | ReceiveIOError | ReceiveCommandError.

Record SessionConfig := {
  cfg_authenticator : PeerAuthenticator;
  cfg_authentication_key : list Z;
  cfg_peer_public_key : option PublicKey;
  cfg_additional_data : list Z
}.

Section Builder.
Context {HS TS : Type} `{!NoiseEngine HS TS}.

Record MessageBuilder := {
  handshake_state : option HS;
  transport_state : option TS;
  state : State;
  additional_data : list Z;
  authenticator : PeerAuthenticator;
  is_initiator : bool;
  clock_skew : Z;  (* u32 *)
  peer_credentials : option PeerCredentials
}.

Definition set_handshake_state (b : MessageBuilder) (h : option HS) : MessageBuilder :=
  {| handshake_state := h; transport_state := transport_state b; state := state b;
     additional_data := additional_data b; authenticator := authenticator b;
     is_initiator := is_initiator b; clock_skew := clock_skew b;
     peer_credentials := peer_credentials b |}.

Definition set_transport_state (b : MessageBuilder) (t : option TS) : MessageBuilder :=
  {| handshake_state := handshake_state b; transport_state := t; state := state b;
     additional_data := additional_data b; authenticator := authenticator b;
     is_initiator := is_initiator b; clock_skew := clock_skew b;
     peer_credentials := peer_credentials b |}.

Definition set_state (b : MessageBuilder) (s : State) : MessageBuilder :=
  {| handshake_state := handshake_state b; transport_state := transport_state b; state := s;
     additional_data := additional_data b; authenticator := authenticator b;
     is_initiator := is_initiator b; clock_skew := clock_skew b;
     peer_credentials := peer_credentials b |}.

Definition set_authenticator (b : MessageBuilder) (a : PeerAuthenticator) : MessageBuilder :=
  {| handshake_state := handshake_state b; transport_state := transport_state b; state := state b;
     additional_data := additional_data b; authenticator := a;
     is_initiator := is_initiator b; clock_skew := clock_skew b;
     peer_credentials := peer_credentials b |}.

Definition set_clock_skew (b : MessageBuilder) (k : Z) : MessageBuilder :=
  {| handshake_state := handshake_state b; transport_state := transport_state b; state := state b;
     additional_data := additional_data b; authenticator := authenticator b;
     is_initiator := is_initiator b; clock_skew := k;
     peer_credentials := peer_credentials b |}.

Definition set_peer_credentials (b : MessageBuilder) (c : option PeerCredentials) : MessageBuilder :=
  {| handshake_state := handshake_state b; transport_state := transport_state b; state := state b;
     additional_data := additional_data b; authenticator := authenticator b;
     is_initiator := is_initiator b; clock_skew := clock_skew b;
     peer_credentials := c |}.

(** The build profile: [true] when arithmetic overflow checks are on
    (Cargo's dev/test profile), [false] when they are off (the release
    profile). *)
Context (overflow_checks : bool).

(** [a - b] on [u32]: panics on underflow with overflow checks on,
    wraps modulo 2^32 otherwise. *)
Definition u32_sub (a b : Z) : option Z :=
  if b <=? a then Some (a - b)
  else if overflow_checks then None
  else Some ((a - b) mod 2 ^ 32).

(** [SystemTime::now()...as_secs() as u32]. *)
Definition as_u32 (secs : Z) : Z := secs mod 2 ^ 32.

(** [MessageBuilder::new]. *)
Definition MessageBuilder_new (config : SessionConfig) (is_init : bool)
  : rust_result MessageBuilder HandshakeError :=
  let mk h := {| handshake_state := Some h; transport_state := None; state := Init;
                additional_data := cfg_additional_data config;
                authenticator := cfg_authenticator config;
                is_initiator := is_init; clock_skew := 0;
                peer_credentials := None |} in
  if is_init then
    match cfg_peer_public_key config with
    | None => Err NoPeerKeyError
    | Some pk =>
        match build_initiator (cfg_authentication_key config) pk PROLOGUE with
        | None => Err SessionCreateError
        | Some h => Ok (mk h)
        end
    end
  else
    match build_responder (cfg_authentication_key config) PROLOGUE with
    | None => Err SessionCreateError
    | Some h => Ok (mk h)
    end.

Definition wipe (b : MessageBuilder) : MessageBuilder :=
  {| handshake_state := handshake_state b; transport_state := transport_state b;
     state := state b; additional_data := []; authenticator := authenticator b;
     is_initiator := is_initiator b; clock_skew := 0;
     peer_credentials := peer_credentials b |}.

Definition rekey_incoming (b : MessageBuilder) : option MessageBuilder :=
  match transport_state b with
  | None => None
  | Some t => Some (set_transport_state b (Some (ts_rekey_incoming t)))
  end.

Definition rekey_outgoing (b : MessageBuilder) : option MessageBuilder :=
  match transport_state b with
  | None => None
  | Some t => Some (set_transport_state b (Some (ts_rekey_outgoing t)))
  end.

(** [client_handshake1]: Noise message 1 into a 65535-byte buffer, then
    [msg1[0] = PROLOGUE[0]] and [msg1[1..].copy_from_slice(&msg[.._len])]
    (panics unless [_len = 1600]). *)
Definition client_handshake1 (b : MessageBuilder)
  : MessageBuilder * rust_result (list Z) ClientHandshakeError :=
  match handshake_state b with
  | None => (b, Panic)
  | Some h =>
      let '(h', r) := hs_write_message h [] NOISE_MESSAGE_MAX_SIZE in
      let b1 := set_handshake_state b (Some h') in
      match r with
      | None => (b1, Err Noise1WriteError)
      | Some out =>
          if Nat.eqb (length out) (NOISE_HANDSHAKE_MESSAGE1_SIZE - PROLOGUE_SIZE)
          then (b1, Ok (PROLOGUE ++ out))
          else (b1, Panic)
      end
  end.

Definition sent_client_handshake1 (b : MessageBuilder) : MessageBuilder :=
  set_state b SentClientHandshake1.

Definition sent_client_handshake2 (b : MessageBuilder) : MessageBuilder :=
  set_state b DataTransfer.

(** [received_server_handshake1], with [now_secs] the value of
    [SystemTime::now()] in seconds. *)
Definition received_server_handshake1 (now_secs : Z) (message : list Z) (b : MessageBuilder)
  : MessageBuilder * rust_result unit ClientHandshakeError :=
  let now := as_u32 now_secs in
  match handshake_state b with
  | None => (b, Panic)
  | Some h =>
      let '(h', r) := hs_read_message h message AUTH_MESSAGE_SIZE in
      let b1 := set_handshake_state b (Some h') in
      match r with
      | None => (b1, Err Noise2ReadError)
      | Some payload =>
          let raw_auth := buffer_after AUTH_MESSAGE_SIZE payload in
          match AuthenticateMessage_from_bytes raw_auth with
          | Err _ => (b1, Err ClientAuthenticationError)
          | Panic => (b1, Panic)
          | Ok peer_auth =>
              match hs_get_remote_static h' with
              | None => (b1, Err FailedToGetRemoteStatic)
              | Some raw_peer_key =>
                  (* array_ref![raw_peer_key, 0, 32] *)
                  if Nat.ltb (length raw_peer_key) KEY_SIZE then (b1, Panic) else
                  let creds := {| additional_data_of := ad peer_auth;
                                  public_key := firstn KEY_SIZE raw_peer_key |} in
                  let b2 := set_peer_credentials b1 (Some creds) in
                  let '(auth', ok) := is_peer_valid (authenticator b2) creds in
                  let b3 := set_authenticator b2 auth' in
                  if negb ok then (b3, Err ClientAuthenticationError) else
                  match u32_sub now (unix_time peer_auth) with
                  | None => (b3, Panic)
                  | Some skew =>
                      (set_state (set_clock_skew b3 skew) ReceivedServerHandshake1, Ok tt)
                  end
              end
          end
      end
  end.

(** [client_handshake2]: the client's [AuthenticateMessage] with
    [unix_time: 0], Noise message 3 into a 65535-byte buffer,
    [assert_eq!(NOISE_HANDSHAKE_MESSAGE3_SIZE, _len)], and the first 328
    bytes of the buffer, which are the written bytes. *)
Definition client_handshake2 (b : MessageBuilder)
  : MessageBuilder * rust_result (list Z) ClientHandshakeError :=
  match handshake_state b with
  | None => (b, Panic)
  | Some h =>
      match AuthenticateMessage_to_vec {| ad := additional_data b; unix_time := 0 |} with
      | Ok payload =>
          let '(h', r) := hs_write_message h payload NOISE_MESSAGE_MAX_SIZE in
          let b1 := set_handshake_state b (Some h') in
          match r with
          | None => (b1, Err Noise3WriteError)
          | Some out =>
              if Nat.eqb NOISE_HANDSHAKE_MESSAGE3_SIZE (length out)
              then (b1, Ok out) else (b1, Panic)
          end
      | _ => (b, Panic)
      end
  end.

(** [received_client_handshake1]: the state guard, the prologue check,
    Noise message 1, then the server's [AuthenticateMessage] with the
    current time, Noise-written into a [NOISE_HANDSHAKE_MESSAGE2_SIZE]
    buffer with [assert_eq!(NOISE_HANDSHAKE_MESSAGE2_SIZE, _len)]. *)
Definition received_client_handshake1 (now_secs : Z) (message : list Z) (b : MessageBuilder)
  : MessageBuilder * rust_result (list Z) ServerHandshakeError :=
  if negb (bool_decide (state b = Init)) then (b, Err InvalidStateError) else
  if negb (bool_decide (firstn PROLOGUE_SIZE message = PROLOGUE))
  then (b, Err PrologueMismatchError) else
  match handshake_state b with
  | None => (b, Panic)
  | Some h =>
      let '(h', r) := hs_read_message h (skipn PROLOGUE_SIZE message) NOISE_HANDSHAKE_MESSAGE1_SIZE in
      let b1 := set_handshake_state b (Some h') in
      match r with
      | None => (b1, Err Noise1ReadError)
      | Some _ =>
          let b2 := set_state b1 ReceivedClientHandshake1 in
          match AuthenticateMessage_to_vec
                  {| ad := additional_data b2; unix_time := as_u32 now_secs |} with
          | Ok payload =>
              let '(h'', w) := hs_write_message h' payload NOISE_HANDSHAKE_MESSAGE2_SIZE in
              let b3 := set_handshake_state b2 (Some h'') in
              match w with
              | None => (b3, Err Noise2WriteError)
              | Some out =>
                  if Nat.eqb NOISE_HANDSHAKE_MESSAGE2_SIZE (length out)
                  then (b3, Ok (buffer_after NOISE_HANDSHAKE_MESSAGE2_SIZE out))
                  else (b3, Panic)
              end
          | _ => (b2, Panic)
          end
      end
  end.

Definition sent_server_handshake1 (b : MessageBuilder) : MessageBuilder :=
  set_state b SentServerHandshake1.

(** [received_client_handshake2]: the decode and the remote static key
    are [unwrap]ped. *)
Definition received_client_handshake2 (message : list Z) (b : MessageBuilder)
  : MessageBuilder * rust_result unit ServerHandshakeError :=
  if negb (bool_decide (state b = SentServerHandshake1)) then (b, Err InvalidStateError) else
  match handshake_state b with
  | None => (b, Panic)
  | Some h =>
      let '(h', r) := hs_read_message h message AUTH_MESSAGE_SIZE in
      let b1 := set_handshake_state b (Some h') in
      match r with
      | None => (b1, Err Noise3ReadError)
      | Some payload =>
          match AuthenticateMessage_from_bytes (buffer_after AUTH_MESSAGE_SIZE payload) with
          | Ok peer_auth =>
              match hs_get_remote_static h' with
              | None => (b1, Panic)
              | Some raw_peer_key =>
                  if Nat.ltb (length raw_peer_key) KEY_SIZE then (b1, Panic) else
                  let creds := {| additional_data_of := ad peer_auth;
                                  public_key := firstn KEY_SIZE raw_peer_key |} in
                  let b2 := set_peer_credentials b1 (Some creds) in
                  let '(auth', ok) := is_peer_valid (authenticator b2) creds in
                  let b3 := set_authenticator b2 auth' in
                  if negb ok then (b3, Err ServerAuthenticationError)
                  else (set_state b3 DataTransfer, Ok tt)
              end
          | _ => (b1, Panic)
          end
      end
  end.

(** [into_transport_mode(self)]: consumes the builder. *)
Definition into_transport_mode (b : MessageBuilder) : rust_result MessageBuilder HandshakeError :=
  match handshake_state b with
  | None => Panic
  | Some h =>
      match hs_into_transport_mode h with
      | None => Err HandshakeNoiseError
      | Some t => Ok (set_transport_state (set_handshake_state b None) (Some t))
      end
  end.

(** [encrypt_message]: the Noise size ceiling, then the 4-byte length
    frame and the body frame, each written into a 65535-byte buffer. *)
Definition encrypt_message (message : list Z) (b : MessageBuilder)
  : MessageBuilder * rust_result (list Z) SendMessageError :=
  let ct_len := (MAC_SIZE + length message)%nat in
  if Nat.ltb NOISE_MESSAGE_MAX_SIZE ct_len then (b, Err InvalidMessageSize) else
  let ct_hdr := write_u32 (Z.of_nat ct_len) in
  match transport_state b with
  | None => (b, Panic)
  | Some t =>
      let '(t1, r1) := ts_write_message t ct_hdr NOISE_MESSAGE_MAX_SIZE in
      let b1 := set_transport_state b (Some t1) in
      match r1 with
      | None => (b1, Err EncryptFail)
      | Some hdr =>
          let '(t2, r2) := ts_write_message t1 message NOISE_MESSAGE_MAX_SIZE in
          let b2 := set_transport_state b (Some t2) in
          match r2 with
          | None => (b2, Err EncryptFail)
          | Some body => (b2, Ok (hdr ++ body))
          end
      end
  end.

(** [decrypt_message_header]: decrypts [message[..20]] into a 4-byte
    buffer ([assert_eq!(x, 4)]) and reads the big-endian length. *)
Definition decrypt_message_header (message : list Z) (b : MessageBuilder)
  : MessageBuilder * rust_result Z ReceiveMessageError :=
  match transport_state b with
  | None => (b, Panic)
  | Some t =>
      if Nat.ltb (length message) NOISE_MESSAGE_HEADER_SIZE then (b, Panic) else
      let '(t1, r) := ts_read_message t (firstn NOISE_MESSAGE_HEADER_SIZE message) HEADER_SIZE in
      let b1 := set_transport_state b (Some t1) in
      match r with
      | None => (b1, Err DecryptFail)
      | Some header =>
          if Nat.eqb (length header) 4 then
            match read_u32 header with
            | Some v => (b1, Ok v)
            | None => (b1, Panic)
            end
          else (b1, Panic)
      end
  end.

Definition decrypt_message (message : list Z) (b : MessageBuilder)
  : MessageBuilder * rust_result (list Z) ReceiveMessageError :=
  match transport_state b with
  | None => (b, Panic)
  | Some t =>
      let '(t1, r) := ts_read_message t message NOISE_MESSAGE_MAX_SIZE in
      let b1 := set_transport_state b (Some t1) in
      match r with
      | None => (b1, Err DecryptFail)
      | Some plaintext => (b1, Ok plaintext)
      end
  end.

End Builder.

(** ** Commands *)

(** Modelled from the spec: commands.rs (the [Command] enum and its
    codec) is not under src/.  The variants follow the command table of
    spec 4.1; the codec [Command::to_vec] / [Command::from_bytes] is left
    as a parameter of the session below, so that what is proved about the
    session holds for every codec. *)
Inductive Command :=
| NoOp
| Disconnect
| SendPacket (sphinx_packet : list Z)
| RetrieveMessage (sequence : Z)
| MessageEmpty (sequence : Z)
| MessageMessage (queue_size_hint : Z) (sequence : Z) (payload : list Z)
| MessageAck (queue_size_hint : Z) (sequence : Z) (surb_id : list Z) (payload : list Z)
| GetConsensus (epoch : Z)
| Consensus (error_code : Z) (payload : list Z).

(** ** Session (sync.rs) *)

Section Session.
Context {HS TS : Type} `{!NoiseEngine HS TS}.
Context (Command_to_vec : Command -> list Z)
        (Command_from_bytes : list Z -> option Command).

(** The two handles of one TCP connection: the reader holds the bytes
    still to be received, the writer the bytes sent so far.  The
    transport builder behind [Arc<Mutex<..>>] is held by one handle here
    (no clone is taken, the lock is uncontended). *)
Record Session := {
  reader_tcp_stream : option (list Z);
  writer_tcp_stream : option (list Z);
  session_is_initiator : bool;
  handshake_builder : option (@MessageBuilder HS TS);
  transport_builder : option (@MessageBuilder HS TS)
}.

Definition set_reader (s : Session) (r : option (list Z)) : Session :=
  {| reader_tcp_stream := r; writer_tcp_stream := writer_tcp_stream s;
     session_is_initiator := session_is_initiator s;
     handshake_builder := handshake_builder s; transport_builder := transport_builder s |}.

Definition set_writer (s : Session) (w : option (list Z)) : Session :=
  {| reader_tcp_stream := reader_tcp_stream s; writer_tcp_stream := w;
     session_is_initiator := session_is_initiator s;
     handshake_builder := handshake_builder s; transport_builder := transport_builder s |}.

Definition set_transport_builder (s : Session) (tb : option (@MessageBuilder HS TS)) : Session :=
  {| reader_tcp_stream := reader_tcp_stream s; writer_tcp_stream := writer_tcp_stream s;
     session_is_initiator := session_is_initiator s;
     handshake_builder := handshake_builder s; transport_builder := tb |}.

(** [read_exact]: fails with [UnexpectedEof] (an I/O error) when the
    stream ends first, the available bytes being consumed. *)
Definition read_exact (n : nat) (s : Session) : Session * option (list Z) :=
  match reader_tcp_stream s with
  | None => (s, None)
  | Some r =>
      if Nat.leb n (length r) then (set_reader s (Some (skipn n r)), Some (firstn n r))
      else (set_reader s (Some []), None)
  end.

(** [send_command]. *)
Definition send_command (cmd : Command) (s : Session)
  : Session * rust_result unit SendMessageError :=
  let ct := Command_to_vec cmd in
  let ct_len := (MAC_LEN + length ct)%nat in
  if Nat.ltb MAX_MSG_LEN ct_len then (s, Err InvalidMessageSize) else
  match transport_builder s with
  | None => (s, Panic)
  | Some tb =>
      let '(tb1, r) := encrypt_message ct tb in
      let s1 := set_transport_builder s (Some tb1) in
      match r with
      | Err e => (s1, Err e)
      | Panic => (s1, Panic)
      | Ok to_send =>
          match rekey_outgoing tb1 with
          | None => (s1, Panic)
          | Some tb2 =>
              let s2 := set_transport_builder s (Some tb2) in
              match writer_tcp_stream s2 with
              | None => (s2, Panic)
              | Some w => (set_writer s2 (Some (w ++ to_send)), Ok tt)
              end
          end
      end
  end.

(** [recv_command]. *)
Definition recv_command (s : Session) : Session * rust_result Command ReceiveMessageError :=
  if negb (is_some (reader_tcp_stream s)) then (s, Panic) else
  let '(s1, hdr) := read_exact (MAC_LEN + 4) s in
  match hdr with
  | None => (s1, Err ReceiveIOError)
  | Some header_ciphertext =>
      match transport_builder s1 with
      | None => (s1, Panic)
      | Some tb =>
          let '(tb1, r) := decrypt_message_header header_ciphertext tb in
          let s2 := set_transport_builder s1 (Some tb1) in
          match r with
          | Err e => (s2, Err e)
          | Panic => (s2, Panic)
          | Ok ct_len =>
              let '(s3, body_ct) := read_exact (Z.to_nat ct_len) s2 in
              match body_ct with
              | None => (s3, Err ReceiveIOError)
              | Some ct =>
                  let '(tb2, r2) := decrypt_message ct tb1 in
                  let s4 := set_transport_builder s3 (Some tb2) in
                  match r2 with
                  | Err e => (s4, Err e)
                  | Panic => (s4, Panic)
                  | Ok body =>
                      match rekey_incoming tb2 with
                      | None => (s4, Panic)
                      | Some tb3 =>
                          let s5 := set_transport_builder s3 (Some tb3) in
                          match Command_from_bytes body with
                          | None => (s5, Err ReceiveCommandError)
                          | Some c => (s5, Ok c)
                          end
                      end
                  end
              end
          end
      end
  end.

(** [finalize_handshake]: the initiator [unwrap]s one received command,
    the responder [unwrap]s one sent [NoOp]. *)
Definition finalize_handshake (s : Session) : Session * rust_result unit HandshakeError :=
  if session_is_initiator s then
    let '(s1, r) := recv_command s in
    match r with
    | Ok NoOp => (s1, Ok tt)
    | Ok _ => (s1, Err InvalidHandshakeFinalize)
    | _ => (s1, Panic)
    end
  else
    let '(s1, r) := send_command NoOp s in
    match r with
    | Ok _ => (s1, Ok tt)
    | _ => (s1, Panic)
    end.

End Session.

(** ** The rest of the session (sync.rs) *)

Section SessionOps.
Context {HS TS : Type} `{!NoiseEngine HS TS}.
Context (overflow_checks : bool).

Definition set_handshake_builder (s : @Session HS TS) (hb : option (@MessageBuilder HS TS))
  : @Session HS TS :=
  {| reader_tcp_stream := reader_tcp_stream s; writer_tcp_stream := writer_tcp_stream s;
     session_is_initiator := session_is_initiator s;
     handshake_builder := hb; transport_builder := transport_builder s |}.

(** [write_all] on the writer handle: the bytes are appended to those
    sent so far. *)
Definition write_all (m : list Z) (s : @Session HS TS) : @Session HS TS :=
  match writer_tcp_stream s with
  | Some w => set_writer s (Some (w ++ m))
  | None => s
  end.

(** [Session::new]. *)
Definition Session_new (cfg : SessionConfig) (is_init : bool)
  : rust_result (@Session HS TS) HandshakeError :=
  match MessageBuilder_new cfg is_init with
  | Ok b => Ok {| reader_tcp_stream := None; writer_tcp_stream := None;
                  session_is_initiator := is_init; handshake_builder := Some b;
                  transport_builder := None |}
  | Err e => Err e
  | Panic => Panic
  end.

(** [Session::handshake], with [now_secs] the clock read by the
    builder call that reads it.  The three [unwrap]s on the handles and
    the builder come first; an [Err] of a builder call of the initiator
    is returned through [?], one of the responder is [unwrap]ped. *)
Definition Session_handshake (now_secs : Z) (s : @Session HS TS)
  : @Session HS TS * rust_result unit HandshakeError :=
  match reader_tcp_stream s, writer_tcp_stream s, handshake_builder s with
  | Some _, Some _, Some f =>
      if session_is_initiator s then
        let '(f1, r1) := client_handshake1 f in
        let s1 := set_handshake_builder s (Some f1) in
        match r1 with
        | Err e => (s1, Err (ClientHandshakeFailure e))
        | Panic => (s1, Panic)
        | Ok m1 =>
            let s2 := write_all m1 s1 in
            let f2 := sent_client_handshake1 f1 in
            let s3 := set_handshake_builder s2 (Some f2) in
            let '(s4, m2) := read_exact NOISE_HANDSHAKE_MESSAGE2_SIZE s3 in
            match m2 with
            | None => (s4, Err HandshakeIOError)
            | Some m2 =>
                let '(f3, r3) := received_server_handshake1 overflow_checks now_secs m2 f2 in
                let s5 := set_handshake_builder s4 (Some f3) in
                match r3 with
                | Err e => (s5, Err (ClientHandshakeFailure e))
                | Panic => (s5, Panic)
                | Ok _ =>
                    let '(f4, r4) := client_handshake2 f3 in
                    let s6 := set_handshake_builder s5 (Some f4) in
                    match r4 with
                    | Err e => (s6, Err (ClientHandshakeFailure e))
                    | Panic => (s6, Panic)
                    | Ok m3 =>
                        let s7 := write_all m3 s6 in
                        (set_handshake_builder s7 (Some (sent_client_handshake2 f4)), Ok tt)
                    end
                end
            end
        end
      else
        let '(s1, m1) := read_exact NOISE_HANDSHAKE_MESSAGE1_SIZE s in
        match m1 with
        | None => (s1, Err HandshakeIOError)
        | Some m1 =>
            let '(f1, r1) := received_client_handshake1 now_secs m1 f in
            let s2 := set_handshake_builder s1 (Some f1) in
            match r1 with
            | Ok m2 =>
                let s3 := write_all m2 s2 in
                let f2 := sent_server_handshake1 f1 in
                let s4 := set_handshake_builder s3 (Some f2) in
                let '(s5, m3) := read_exact NOISE_HANDSHAKE_MESSAGE3_SIZE s4 in
                match m3 with
                | None => (s5, Err HandshakeIOError)
                | Some m3 =>
                    let '(f3, r3) := received_client_handshake2 m3 f2 in
                    let s6 := set_handshake_builder s5 (Some f3) in
                    match r3 with
                    | Ok _ => (s6, Ok tt)
                    | _ => (s6, Panic)
                    end
                end
            | _ => (s2, Panic)
            end
        end
  | _, _, _ => (s, Panic)
  end.

(** [Session::initialize]: both handles on the new connection, whose
    incoming bytes are [incoming] and on which nothing has been sent
    yet ([try_clone] of a connected stream is taken to succeed), then
    the handshake. *)
Definition Session_initialize (now_secs : Z) (incoming : list Z) (s : @Session HS TS)
  : @Session HS TS * rust_result unit HandshakeError :=
  Session_handshake now_secs (set_writer (set_reader s (Some incoming)) (Some [])).

(** [Session::into_transport_mode(self)]: [handshake_builder.take().unwrap()]
    moved into transport mode behind the [Arc<Mutex<..>>]. *)
Definition Session_into_transport_mode (s : @Session HS TS)
  : rust_result (@Session HS TS) HandshakeError :=
  match handshake_builder s with
  | None => Panic
  | Some hb =>
      match into_transport_mode hb with
      | Ok b => Ok {| reader_tcp_stream := reader_tcp_stream s;
                      writer_tcp_stream := writer_tcp_stream s;
                      session_is_initiator := session_is_initiator s;
                      handshake_builder := None; transport_builder := Some b |}
      | Err e => Err e
      | Panic => Panic
      end
  end.

(** [Session::close]: both rekeys and [wipe] on the transport builder,
    then the [unwrap]s of the two handles before their
    [shutdown(Both)].  The result is the transport builder [close]
    leaves behind ([None] is a panic).  The shutdowns act on the socket
    itself, which the byte-stream handles of this model do not
    represent, so [close] is modelled by its effect on the builder and
    its panics only. *)
Definition Session_close (s : @Session HS TS) : option (@MessageBuilder HS TS) :=
  match transport_builder s with
  | None => None
  | Some tb =>
      match rekey_outgoing tb with
      | None => None
      | Some tb1 =>
          match rekey_incoming tb1 with
          | None => None
          | Some tb2 =>
              match reader_tcp_stream s, writer_tcp_stream s with
              | Some _, Some _ => Some (wipe tb2)
              | _, _ => None
              end
          end
      end
  end.

(** The accessors; [None] is a panic. *)
Definition Session_peer_credentials (s : @Session HS TS) : option PeerCredentials :=
  match handshake_builder s with
  | None => None
  | Some b => peer_credentials b
  end.

Definition Session_clock_skew (s : @Session HS TS) : option Z :=
  match transport_builder s with
  | None => None
  | Some b => Some (clock_skew b)
  end.

Definition Session_from_client (s : @Session HS TS) : option bool :=
  if session_is_initiator s then None else
  match transport_builder s with
  | None => None
  | Some b => Some (is_peer_client (authenticator b))
  end.

End SessionOps.

(** ** The handshake as a sequence of builder calls *)

Section Driver.
Context {HS TS : Type} `{!NoiseEngine HS TS}.
Context (overflow_checks : bool).

(** One public call on a [MessageBuilder]; the [Call*Handshake*]
    constructors carry the inputs the call receives (the current time
    and the frame read from the peer). *)
Inductive HandshakeCall :=
| CallClientHandshake1
| CallSentClientHandshake1
| CallReceivedServerHandshake1 (now_secs : Z) (message : list Z)
| CallClientHandshake2
| CallSentClientHandshake2
| CallReceivedClientHandshake1 (now_secs : Z) (message : list Z)
| CallSentServerHandshake1
| CallReceivedClientHandshake2 (message : list Z)
| CallIntoTransportMode
| CallWipe.

Definition result_ok {A E} (r : rust_result A E) : option bool :=
  match r with Ok _ => Some true | Err _ => Some false | Panic => None end.

(** The builder after the call and whether it returned [Ok]; [None] when
    the call panics or, for [into_transport_mode(self)], when it fails
    and the consumed builder is gone. *)
Definition exec_call (c : HandshakeCall) (b : @MessageBuilder HS TS)
  : option (@MessageBuilder HS TS * bool) :=
  let with_ok {A E} (p : @MessageBuilder HS TS * rust_result A E) :=
    match result_ok (snd p) with None => None | Some ok => Some (fst p, ok) end in
  match c with
  | CallClientHandshake1 => with_ok (client_handshake1 b)
  | CallSentClientHandshake1 => Some (sent_client_handshake1 b, true)
  | CallReceivedServerHandshake1 n m => with_ok (received_server_handshake1 overflow_checks n m b)
  | CallClientHandshake2 => with_ok (client_handshake2 b)
  | CallSentClientHandshake2 => Some (sent_client_handshake2 b, true)
  | CallReceivedClientHandshake1 n m => with_ok (received_client_handshake1 n m b)
  | CallSentServerHandshake1 => Some (sent_server_handshake1 b, true)
  | CallReceivedClientHandshake2 m => with_ok (received_client_handshake2 m b)
  | CallIntoTransportMode =>
      match into_transport_mode b with Ok b' => Some (b', true) | _ => None end
  | CallWipe => Some (wipe b, true)
  end.

(** Calls in order, stopping at the first one that does not return
    [Ok] (the [?] and [unwrap] of [Session::handshake]). *)
Fixpoint run_calls (cs : list HandshakeCall) (b : @MessageBuilder HS TS)
  : option (@MessageBuilder HS TS * bool) :=
  match cs with
  | [] => Some (b, true)
  | c :: cs' =>
      match exec_call c b with
      | None => None
      | Some (b', true) => run_calls cs' b'
      | Some (b', false) => Some (b', false)
      end
  end.

(** The builder calls of [Session::handshake] followed by
    [into_transport_mode], given the current time and the frames the
    peer sends (message 1 to a responder, message 2 to an initiator,
    message 3 to a responder). *)
Definition handshake_calls (initiator : bool) (now_secs : Z) (msg1 msg2 msg3 : list Z)
  : list HandshakeCall :=
  if initiator then
    [CallClientHandshake1; CallSentClientHandshake1;
     CallReceivedServerHandshake1 now_secs msg2;
     CallClientHandshake2; CallSentClientHandshake2; CallIntoTransportMode]
  else
    [CallReceivedClientHandshake1 now_secs msg1; CallSentServerHandshake1;
     CallReceivedClientHandshake2 msg3; CallIntoTransportMode].

(** Builders reachable through the public API from [MessageBuilder::new]. *)
Inductive reachable : @MessageBuilder HS TS -> Prop :=
| reachable_new cfg init b :
    MessageBuilder_new cfg init = Ok b -> reachable b
| reachable_call c b b' ok :
    reachable b -> exec_call c b = Some (b', ok) -> reachable b'.

End Driver.

(** The invariant of spec 3: credentials are present exactly in the
    states [ReceivedServerHandshake1], [DataTransfer], [Disconnected]. *)
Definition credentials_state (s : State) : bool :=
  match s with
  | ReceivedServerHandshake1 | DataTransfer | Disconnected => true
  | _ => false
  end.

Definition credentials_invariant {HS TS} (b : @MessageBuilder HS TS) : bool :=
  Bool.eqb (is_some (peer_credentials b)) (credentials_state (state b)).

(** ** A concrete engine for evaluating the model

    Handshake reads return the first [cap] bytes of the frame, every
    peer has the static key [9, 9, ..., 9]; transport writes append a
    16-byte zero tag and reads strip it. *)
Module ToyNoise.

Global Instance toy_engine : NoiseEngine unit unit := {|
  build_initiator _ _ _ := Some tt;
  build_responder _ _ := Some tt;
  hs_write_message h p cap := (h, if Nat.leb (length p) cap then Some p else None);
  hs_read_message h m cap := (h, Some (firstn cap m));
  hs_get_remote_static _ := Some (repeat 9 32);
  hs_into_transport_mode _ := Some tt;
  ts_write_message t p cap := (t, Some (p ++ repeat 0 16));
  ts_read_message t m cap :=
    (t, if Nat.ltb (length m) 16 then None else Some (firstn (Nat.min cap (length m - 16)) m));
  ts_rekey_incoming t := t;
  ts_rekey_outgoing t := t
|}.

Definition server_key : PublicKey := repeat 9 32.
Definition other_key : PublicKey := repeat 7 32.

Definition client_config (expected : PublicKey) : SessionConfig :=
  {| cfg_authenticator := Client {| peer_public_key := expected |};
     cfg_authentication_key := repeat 1 32;
     cfg_peer_public_key := Some expected;
     cfg_additional_data := [] |}.

(** The [NoOp] frame of spec 4.1 and a codec that knows only it. *)
Definition noop_to_vec (_ : Command) : list Z := [0; 0; 0; 0; 0; 0; 0; 0].
Definition noop_from_bytes (b : list Z) : option Command :=
  if bool_decide (b = [0; 0; 0; 0; 0; 0; 0; 0]) then Some NoOp else Some Disconnect.

End ToyNoise.

(** A Noise engine whose handshake state counts the handshake messages
    processed.  It pads message 1 to the 1600 bytes of a Noise message 1
    of this handshake and otherwise writes the payload as is; it reports
    [server_key] as the remote static key. *)
Module CountingNoise.
Import ToyNoise.

Definition handshake_padding (n : nat) : nat :=
  match n with O => 1600 | _ => 0 end%nat.

Global Instance counting_engine : NoiseEngine nat unit := {|
  build_initiator _ _ _ := Some 0%nat;
  build_responder _ _ := Some 0%nat;
  hs_write_message h p cap := (S h, Some (p ++ repeat 0 (handshake_padding h)));
  hs_read_message h m cap := (S h, Some (firstn cap m));
  hs_get_remote_static _ := Some server_key;
  hs_into_transport_mode _ := Some tt;
  ts_write_message t p cap := (t, Some (p ++ repeat 0 16));
  ts_read_message t m cap :=
    (t, if Nat.ltb (length m) 16 then None else Some (firstn (Nat.min cap (length m - 16)) m));
  ts_rekey_incoming t := t;
  ts_rekey_outgoing t := t
|}.

End CountingNoise.

(** ** Evaluations *)

Example to_vec_test_message_length :
  match AuthenticateMessage_to_vec {| ad := [1; 2; 3]; unix_time := 321 |} with
  | Ok b => length b = 260%nat
  | _ => False
  end.
Proof. vm_compute. reflexivity. Qed.

(** Through the 264-byte buffer of the handshake the message decodes. *)
Example from_bytes_handshake_buffer :
  match AuthenticateMessage_to_vec {| ad := [1; 2; 3]; unix_time := 321 |} with
  | Ok b => AuthenticateMessage_from_bytes (buffer_after AUTH_MESSAGE_SIZE b)
            = Ok {| ad := [1; 2; 3]; unix_time := 321 |}
  | _ => False
  end.
Proof. vm_compute. reflexivity. Qed.

(** ** AuthenticateMessage codec *)

Lemma AuthenticateMessage_to_vec_ok (m : AuthenticateMessage) :
  (length (ad m) <= MAX_ADDITIONAL_DATA_SIZE)%nat ->
  exists b, AuthenticateMessage_to_vec m = Ok b /\ length b = 260%nat.
Proof.
  intros Hlen. unfold AuthenticateMessage_to_vec.
  destruct (Nat.ltb_spec MAX_ADDITIONAL_DATA_SIZE (length (ad m))); [lia |].
  eexists; split; [reflexivity |].
  rewrite !length_app, length_firstn, repeat_length. simpl.
  unfold MAX_ADDITIONAL_DATA_SIZE in *. lia.
Qed.

Lemma AuthenticateMessage_from_bytes_wrong_size (b : list Z) :
  length b <> AUTH_MESSAGE_SIZE -> AuthenticateMessage_from_bytes b = Err InvalidSize.
Proof.
  intros Hlen. unfold AuthenticateMessage_from_bytes.
  destruct (Nat.eqb_spec (length b) AUTH_MESSAGE_SIZE); [contradiction | reflexivity].
Qed.

(** Every encoding is 260 bytes long and is rejected by [from_bytes],
    which wants [AUTH_MESSAGE_SIZE] = 264 bytes. *)
Lemma AuthenticateMessage_round_trip_rejected (m : AuthenticateMessage) :
  (length (ad m) <= MAX_ADDITIONAL_DATA_SIZE)%nat ->
  exists b, AuthenticateMessage_to_vec m = Ok b /\ length b = 260%nat
            /\ AuthenticateMessage_from_bytes b = Err InvalidSize.
Proof.
  intros Hlen. destruct (AuthenticateMessage_to_vec_ok m Hlen) as [b [Hb Hl]].
  exists b. repeat split; try assumption.
  apply AuthenticateMessage_from_bytes_wrong_size. rewrite Hl. discriminate.
Qed.

(** C1 (code_bug): for the message of the crate's own
    [authentication_message_test], [{ad: [1,2,3], unix_time: 321}], the
    encoding has 260 bytes and decoding it fails with [InvalidSize]
    instead of returning the message. *)
Theorem authenticate_message_round_trip_test_fails :
  match AuthenticateMessage_to_vec {| ad := [1; 2; 3]; unix_time := 321 |} with
  | Ok b => length b = 260%nat /\ AuthenticateMessage_from_bytes b = Err InvalidSize
  | _ => False
  end.
Proof. vm_compute. split; reflexivity. Qed.

(** ** Frame sizes *)

(** C2 (code_bug): the handshake frame constants are 1601, 1944 and 328
    bytes; message 2 is 1680 + [AUTH_MESSAGE_SIZE] with
    [AUTH_MESSAGE_SIZE] = 1 + 8 + 255 = 264, not 1940. *)
Theorem handshake_frame_sizes :
  NOISE_HANDSHAKE_MESSAGE1_SIZE = 1601%nat /\
  NOISE_HANDSHAKE_MESSAGE2_SIZE = 1944%nat /\
  NOISE_HANDSHAKE_MESSAGE3_SIZE = 328%nat /\
  AUTH_MESSAGE_SIZE = 264%nat.
Proof. repeat split; reflexivity. Qed.

Section FrameLengths.
Context {HS TS : Type} `{!NoiseEngine HS TS}.

(** The frames the builder produces have exactly the constant sizes. *)
Lemma builder_frame_lengths (b b' : @MessageBuilder HS TS) (now : Z) (m out : list Z) :
  (client_handshake1 b = (b', Ok out) -> length out = NOISE_HANDSHAKE_MESSAGE1_SIZE) /\
  (received_client_handshake1 now m b = (b', Ok out) -> length out = NOISE_HANDSHAKE_MESSAGE2_SIZE) /\
  (client_handshake2 b = (b', Ok out) -> length out = NOISE_HANDSHAKE_MESSAGE3_SIZE).
Proof.
  repeat split; intros H.
  - unfold client_handshake1 in H.
    destruct (handshake_state b) as [h|]; [|discriminate].
    destruct (hs_write_message h [] NOISE_MESSAGE_MAX_SIZE) as [h' [o|]]; [|discriminate].
    destruct (Nat.eqb_spec (length o) (NOISE_HANDSHAKE_MESSAGE1_SIZE - PROLOGUE_SIZE));
      [|discriminate].
    injection H as _ Hout; subst out. simpl. rewrite e. reflexivity.
  - unfold received_client_handshake1 in H.
    repeat (case_match; simplify_eq/=); try discriminate.

    unfold buffer_after. rewrite length_app, repeat_length. change NOISE_HANDSHAKE_MESSAGE2_SIZE with 1944%nat. lia.
  - unfold client_handshake2 in H.
    repeat (case_match; simplify_eq/=); try discriminate.
    reflexivity.
Qed.

End FrameLengths.

(** ** Peer authenticator *)

(** C4: what [is_peer_valid] admits, per variant. *)
Theorem is_peer_valid_admits :
  (forall st c, snd (is_peer_valid (Client st) c) = true <-> public_key c = peer_public_key st) /\
  (forall st c, snd (is_peer_valid (Server st) c) = true <-> is_Some (server_mix_map st !! public_key c)) /\
  (forall st c, snd (is_peer_valid (Provider st) c) = true <->
                is_Some (mix_map st !! public_key c) \/ is_Some (client_map st !! public_key c)).
Proof.
  repeat split; intros H; simpl in *.
  - apply bool_decide_eq_true in H. congruence.
  - apply bool_decide_eq_true. congruence.
  - destruct (server_mix_map st !! public_key c); [eexists; reflexivity | discriminate].
  - destruct H as [v Hv]. rewrite Hv. reflexivity.
  - destruct (mix_map st !! public_key c) eqn:Hm; [left; eexists; reflexivity |].
    destruct (client_map st !! public_key c) eqn:Hc; [right; eexists; reflexivity |].
    discriminate.
  - destruct H as [[v Hv] | [v Hv]]; rewrite Hv; [reflexivity |].
    destruct (mix_map st !! public_key c); reflexivity.
Qed.

Module ProviderFlags.
Import ToyNoise.

Definition both_sets (fc : bool) : ProviderAuthenticatorState :=
  {| mix_map := {[server_key := true]}; client_map := {[server_key := true]};
     from_client := fc; from_mix := false |}.

Definition server_credentials : PeerCredentials :=
  {| additional_data_of := []; public_key := server_key |}.

(** C5 (counterexample): a Provider whose [from_client] is already set
    admits a key that is in both sets through the mix set, and
    [is_peer_client()] afterwards returns [true]: the call sets
    [from_mix] but never clears [from_client]. *)
Lemma provider_tie_break_keeps_from_client :
  is_peer_valid (Provider (both_sets true)) server_credentials
    = (Provider (set_from_mix (both_sets true)), true) /\
  is_peer_client (fst (is_peer_valid (Provider (both_sets true)) server_credentials)) = true.
Proof. split; reflexivity. Qed.

(** C5 (amended): a key in the mix set is admitted through it:
    [from_mix] is set and [from_client] left as it was, so
    [is_peer_client()] is [false] when [from_client] was [false] before
    the call; a key only in the client set sets [from_client] and
    [is_peer_client()] returns [true]. *)
Theorem provider_tie_break (st : ProviderAuthenticatorState) (c : PeerCredentials) :
  (is_Some (mix_map st !! public_key c) ->
     is_peer_valid (Provider st) c = (Provider (set_from_mix st), true) /\
     is_peer_client (fst (is_peer_valid (Provider st) c)) = from_client st) /\
  (mix_map st !! public_key c = None -> is_Some (client_map st !! public_key c) ->
     is_peer_valid (Provider st) c = (Provider (set_from_client st), true) /\
     is_peer_client (fst (is_peer_valid (Provider st) c)) = true).
Proof.
  split.
  - intros [v Hv]. simpl. rewrite Hv. split; reflexivity.
  - intros Hm [v Hv]. simpl. rewrite Hm, Hv. split; reflexivity.
Qed.

Lemma provider_tie_break_witness :
  (is_Some (mix_map (both_sets false) !! public_key server_credentials) /\
   is_peer_client (fst (is_peer_valid (Provider (both_sets false)) server_credentials)) = false) /\
  (mix_map (set_from_mix (both_sets false)) !! other_key = None /\
   is_Some (client_map {| mix_map := ∅; client_map := {[other_key := true]};
                          from_client := false; from_mix := false |} !! other_key)).
Proof.
  pose proof (provider_tie_break (both_sets false) server_credentials) as [H1 _].
  pose proof (provider_tie_break {| mix_map := ∅; client_map := {[other_key := true]};
                                    from_client := false; from_mix := false |}
                {| additional_data_of := []; public_key := other_key |}) as [_ H2].
  assert (Hs : is_Some (mix_map (both_sets false) !! public_key server_credentials))
    by (eexists; reflexivity).
  assert (Hc : is_Some (client_map {| mix_map := ∅; client_map := {[other_key := true]};
                          from_client := false; from_mix := false |} !! other_key))
    by (eexists; reflexivity).
  split; split.
  - exact Hs.
  - rewrite (proj2 (H1 Hs)). reflexivity.
  - reflexivity.
  - exact Hc.
Defined.

(** A sequence of [is_peer_valid] calls on one authenticator. *)
Definition run_validations (a : PeerAuthenticator) (cs : list PeerCredentials) : PeerAuthenticator :=
  fold_left (fun a c => fst (is_peer_valid a c)) cs a.

(** The key matched the client set and not the mix set. *)
Definition client_only_match (st : ProviderAuthenticatorState) (c : PeerCredentials) : bool :=
  negb (is_some (mix_map st !! public_key c)) && is_some (client_map st !! public_key c).

Lemma run_validations_client (st : ClientAuthenticatorState) cs :
  run_validations (Client st) cs = Client st.
Proof. induction cs as [|c cs IH]; simpl; auto. Qed.

Lemma run_validations_server (st : ServerAuthenticatorState) cs :
  run_validations (Server st) cs = Server st.
Proof. induction cs as [|c cs IH]; simpl; auto. Qed.

Lemma run_validations_provider cs : forall st,
  exists st', run_validations (Provider st) cs = Provider st' /\
    mix_map st' = mix_map st /\ client_map st' = client_map st /\
    from_client st' = from_client st || existsb (client_only_match st) cs.
Proof.
  induction cs as [|c cs IH]; intros st; simpl.
  - exists st. rewrite orb_false_r. auto.
  - assert (Em : client_only_match (set_from_mix st) = client_only_match st) by reflexivity.
    assert (Ec : client_only_match (set_from_client st) = client_only_match st) by reflexivity.
    unfold client_only_match at 1.
    destruct (is_some (mix_map st !! public_key c)) eqn:Hm; simpl.
    + destruct (IH (set_from_mix st)) as [st' [H1 [H2 [H3 H4]]]].
      exists st'. rewrite H1, H2, H3, H4, Em. simpl. auto.
    + destruct (is_some (client_map st !! public_key c)) eqn:Hc; simpl.
      * destruct (IH (set_from_client st)) as [st' [H1 [H2 [H3 H4]]]].
        exists st'. rewrite H1, H2, H3, H4, Ec. simpl. rewrite orb_true_r. auto.
      * destruct (IH st) as [st' [H1 [H2 [H3 H4]]]].
        exists st'. auto.
Qed.

(** C10 (counterexample): a Provider built with [from_client: true]
    answers [is_peer_client() == true] before any [is_peer_valid] call. *)
Lemma provider_preset_from_client :
  is_peer_client (run_validations (Provider (both_sets true)) []) = true.
Proof. reflexivity. Qed.

(** C10 (amended): after any sequence of [is_peer_valid] calls a Client
    or Server authenticator answers [is_peer_client() == false]; a
    Provider whose [from_client] starts [false] answers [true] exactly
    when one of the calls presented a key of its client set that is not
    in its mix set. *)
Theorem is_peer_client_after_validations (cs : list PeerCredentials) :
  (forall st, is_peer_client (run_validations (Client st) cs) = false) /\
  (forall st, is_peer_client (run_validations (Server st) cs) = false) /\
  (forall st, from_client st = false ->
     (is_peer_client (run_validations (Provider st) cs) = true <->
      exists c, In c cs /\ mix_map st !! public_key c = None
                /\ is_Some (client_map st !! public_key c))).
Proof.
  split; [|split].
  - intros st. rewrite run_validations_client. reflexivity.
  - intros st. rewrite run_validations_server. reflexivity.
  - intros st Hfc. destruct (run_validations_provider cs st) as [st' [H1 [_ [_ H4]]]].
    rewrite H1. simpl. rewrite H4, Hfc. simpl. rewrite existsb_exists.
    split.
    + intros [c [Hin Hc]]. exists c. split; [exact Hin |].
      unfold client_only_match in Hc. apply andb_true_iff in Hc as [Hm Hcl].
      destruct (mix_map st !! public_key c); [discriminate |].
      destruct (client_map st !! public_key c); [|discriminate].
      split; [reflexivity | eexists; reflexivity].
    + intros [c [Hin [Hm [v Hv]]]]. exists c. split; [exact Hin |].
      unfold client_only_match. rewrite Hm, Hv. reflexivity.
Qed.

Lemma is_peer_client_after_validations_witness :
  from_client (both_sets false) = false /\
  is_peer_client (run_validations (Provider (both_sets false)) [server_credentials]) = false.
Proof.
  split; [reflexivity |].
  pose proof (is_peer_client_after_validations [server_credentials]) as [_ [_ H]].
  destruct (is_peer_client (run_validations (Provider (both_sets false)) [server_credentials]))
    eqn:E; [|reflexivity].
  exfalso. apply (H (both_sets false) eq_refl) in E as [c [Hin [Hm _]]].
  destruct Hin as [<- | []]. discriminate.
Defined.

End ProviderFlags.

(** ** Responder prologue check *)

Section Prologue.
Context {HS TS : Type} `{!NoiseEngine HS TS}.

(** C6: in [Init], a 1601-byte first frame whose first byte is not
    [0x01] is rejected with [PrologueMismatchError] and the builder,
    Noise handshake state included, is left as it was; when the first
    byte is [0x01] the Noise read is run on the frame without that byte,
    and what the builder holds afterwards is the state that read left. *)
Theorem received_client_handshake1_prologue (now : Z) (message : list Z) (b : @MessageBuilder HS TS) :
  length message = NOISE_HANDSHAKE_MESSAGE1_SIZE -> state b = Init ->
  (hd 0 message <> 1 ->
     received_client_handshake1 now message b = (b, Err PrologueMismatchError)) /\
  (hd 0 message = 1 -> forall h h' r,
     handshake_state b = Some h ->
     hs_read_message h (skipn PROLOGUE_SIZE message) NOISE_HANDSHAKE_MESSAGE1_SIZE = (h', r) ->
     (r = None -> received_client_handshake1 now message b
                  = (set_handshake_state b (Some h'), Err Noise1ReadError)) /\
     (r <> None -> state (fst (received_client_handshake1 now message b)) = ReceivedClientHandshake1)).
Proof.
  intros Hlen Hst.
  destruct message as [|x rest]; [discriminate |].
  unfold received_client_handshake1. rewrite Hst. simpl.
  split.
  - intros Hx. rewrite bool_decide_false; [reflexivity |].
    intros Heq. injection Heq. auto.
  - intros Hx h h' r Hh Hr. subst x. rewrite bool_decide_true by reflexivity. simpl.
    rewrite Hh. simpl in Hr. rewrite Hr.
    split.
    + intros ->. reflexivity.
    + intros Hn. destruct r as [p|]; [|congruence].
      destruct (AuthenticateMessage_to_vec _) as [q| |]; [| reflexivity | reflexivity].
      destruct (hs_write_message h' q _) as [h'' [o|]]; [| reflexivity].
      case_match; reflexivity.
Qed.

End Prologue.

(** ** Sending and finalization *)

Section Sending.
Context {HS TS : Type} `{!NoiseEngine HS TS}.
Context (Command_to_vec : Command -> list Z) (Command_from_bytes : list Z -> option Command).

(** C7: a command whose ciphertext body would exceed [MAX_MSG_LEN] is
    refused with [InvalidMessageSize] and the session is returned as it
    was: no byte written, the transport cipher state (no encryption, no
    rekey) unchanged. *)
Theorem send_command_too_large (cmd : Command) (s : @Session HS TS) :
  (MAX_MSG_LEN < MAC_LEN + length (Command_to_vec cmd))%nat ->
  send_command Command_to_vec cmd s = (s, Err InvalidMessageSize).
Proof.
  intros H. unfold send_command.
  destruct (Nat.ltb_spec MAX_MSG_LEN (MAC_LEN + length (Command_to_vec cmd))); [reflexivity | lia].
Qed.

Lemma read_exact_writer (n : nat) (s : @Session HS TS) :
  writer_tcp_stream (fst (read_exact n s)) = writer_tcp_stream s.
Proof.
  unfold read_exact. destruct (reader_tcp_stream s); [|reflexivity].
  destruct (Nat.leb n (length l)); reflexivity.
Qed.

Lemma recv_command_writer (s s' : @Session HS TS) r :
  recv_command Command_from_bytes s = (s', r) -> writer_tcp_stream s' = writer_tcp_stream s.
Proof.
  unfold recv_command. intros H.
  destruct (is_some (reader_tcp_stream s)); cbv [negb] in H; [|congruence].
  pose proof (read_exact_writer (MAC_LEN + 4) s) as W1.
  destruct (read_exact (MAC_LEN + 4) s) as [s1 [hdr|]]; simpl in W1; [|congruence].
  destruct (transport_builder s1) as [tb|]; [|congruence].
  destruct (decrypt_message_header hdr tb) as [tb1 [v| e |]]; try (injection H as <- _; exact W1).
  pose proof (read_exact_writer (Z.to_nat v) (set_transport_builder s1 (Some tb1))) as W2.
  destruct (read_exact _ _) as [s3 [ct|]]; simpl in W2;
    [| injection H as <- _; rewrite W2; exact W1].
  destruct (decrypt_message ct tb1) as [tb2 [p| e |]];
    try (injection H as <- _; simpl; rewrite W2; exact W1).
  destruct (rekey_incoming tb2) as [tb3|];
    [| injection H as <- _; simpl; rewrite W2; exact W1].
  destruct (Command_from_bytes p); injection H as <- _; simpl; rewrite W2; exact W1.
Qed.

(** C8: the initiator's finalization receives one command: [Ok] when it
    is [NoOp], [InvalidHandshakeFinalize] for any other command, and it
    writes nothing; the responder's finalization sends [NoOp] and
    returns [Ok] once that send succeeded. *)
Theorem finalize_handshake_checks_noop (s : @Session HS TS) :
  (session_is_initiator s = true -> forall s' c,
     recv_command Command_from_bytes s = (s', Ok c) ->
     finalize_handshake Command_to_vec Command_from_bytes s
       = (s', match c with NoOp => Ok tt | _ => Err InvalidHandshakeFinalize end) /\
     writer_tcp_stream s' = writer_tcp_stream s) /\
  (session_is_initiator s = false -> forall s',
     send_command Command_to_vec NoOp s = (s', Ok tt) ->
     finalize_handshake Command_to_vec Command_from_bytes s = (s', Ok tt)).
Proof.
  split.
  - intros Hi s' c Hr. unfold finalize_handshake. rewrite Hi, Hr.
    split; [destruct c; reflexivity |].
    exact (recv_command_writer s s' (Ok c) Hr).
  - intros Hi s' Hs. unfold finalize_handshake. rewrite Hi, Hs. reflexivity.
Qed.

End Sending.

(** ** Clock skew *)

Section ClockSkew.
Context {HS TS : Type} `{!NoiseEngine HS TS}.

(** C9 (amended): once message 2 has been read, decoded and its sender
    admitted, the cached skew is [now as u32 - peer_time] on [u32].
    Without overflow checks (release profile) it wraps: the call
    succeeds with [(now - peer_time) mod 2^32] for every pair; with
    overflow checks (dev/test profile) the call succeeds with
    [now - peer_time] when [peer_time <= now] and panics when the peer
    clock leads. *)
Theorem received_server_handshake1_clock_skew
    (now_secs : Z) (message : list Z) (b : @MessageBuilder HS TS)
    h h' payload peer_auth raw_key auth' :
  handshake_state b = Some h ->
  hs_read_message h message AUTH_MESSAGE_SIZE = (h', Some payload) ->
  AuthenticateMessage_from_bytes (buffer_after AUTH_MESSAGE_SIZE payload) = Ok peer_auth ->
  0 <= unix_time peer_auth < 2 ^ 32 ->
  hs_get_remote_static h' = Some raw_key ->
  (KEY_SIZE <= length raw_key)%nat ->
  is_peer_valid (authenticator b)
    {| additional_data_of := ad peer_auth; public_key := firstn KEY_SIZE raw_key |} = (auth', true) ->
  (snd (received_server_handshake1 false now_secs message b) = Ok tt /\
   clock_skew (fst (received_server_handshake1 false now_secs message b))
     = (as_u32 now_secs - unix_time peer_auth) mod 2 ^ 32) /\
  (unix_time peer_auth <= as_u32 now_secs ->
   snd (received_server_handshake1 true now_secs message b) = Ok tt /\
   clock_skew (fst (received_server_handshake1 true now_secs message b))
     = as_u32 now_secs - unix_time peer_auth) /\
  (as_u32 now_secs < unix_time peer_auth ->
   snd (received_server_handshake1 true now_secs message b) = Panic).
Proof.
  intros Hh Hr Hd Ht Hk Hl Hv.
  assert (Hn : 0 <= as_u32 now_secs < 2 ^ 32) by (unfold as_u32; apply Z.mod_pos_bound; lia).
  unfold received_server_handshake1. rewrite Hh, Hr, Hd, Hk.
  destruct (Nat.ltb_spec (length raw_key) KEY_SIZE); [lia |].
  simpl authenticator. rewrite Hv. simpl negb. cbv iota.
  unfold u32_sub.
  split; [|split].
  - destruct (Z.leb_spec (unix_time peer_auth) (as_u32 now_secs)); simpl; split; auto.
    rewrite Z.mod_small; lia.
  - intros Hle. destruct (Z.leb_spec (unix_time peer_auth) (as_u32 now_secs)); [|lia].
    simpl. auto.
  - intros Hlt. destruct (Z.leb_spec (unix_time peer_auth) (as_u32 now_secs)); [lia|].
    reflexivity.
Qed.

End ClockSkew.

(** ** Credentials and builder state *)

Lemma is_peer_valid_reject_unchanged (a a' : PeerAuthenticator) (c : PeerCredentials) :
  is_peer_valid a c = (a', false) -> a' = a.
Proof.
  destruct a as [st|st|st]; simpl; intros H; try congruence.
  destruct (is_some (mix_map st !! public_key c)); [congruence |].
  destruct (is_some (client_map st !! public_key c)); congruence.
Qed.

(** The credentials left by an authenticator rejection. *)
Definition rejected_credentials {HS TS} (b : @MessageBuilder HS TS) : Prop :=
  (state b = SentClientHandshake1 \/ state b = SentServerHandshake1) /\
  exists c, peer_credentials b = Some c /\
            is_peer_valid (authenticator b) c = (authenticator b, false).

Section Invariant.
Context {HS TS : Type} `{!NoiseEngine HS TS}.
Context (overflow_checks : bool).

Abbreviation Builder := (@MessageBuilder HS TS).

Lemma client_handshake1_keeps (b b' : Builder) r :
  client_handshake1 b = (b', r) ->
  state b' = state b /\ peer_credentials b' = peer_credentials b.
Proof. unfold client_handshake1. repeat case_match; intros Hcall; simplify_eq; auto. Qed.

Lemma client_handshake2_keeps (b b' : Builder) r :
  client_handshake2 b = (b', r) ->
  state b' = state b /\ peer_credentials b' = peer_credentials b.
Proof. unfold client_handshake2. repeat case_match; intros Hcall; simplify_eq; auto. Qed.

Lemma into_transport_mode_keeps (b b' : Builder) :
  into_transport_mode b = Ok b' ->
  state b' = state b /\ peer_credentials b' = peer_credentials b.
Proof. unfold into_transport_mode. repeat case_match; intros Hcall; simplify_eq; auto. Qed.

Lemma received_client_handshake1_effect now m (b b' : Builder) r :
  received_client_handshake1 now m b = (b', r) ->
  peer_credentials b' = peer_credentials b /\
  (state b' = state b \/ (state b = Init /\ state b' = ReceivedClientHandshake1)) /\
  (result_ok r = Some true -> state b = Init /\ state b' = ReceivedClientHandshake1).
Proof.
  unfold received_client_handshake1.
  destruct (bool_decide (state b = Init)) eqn:Hi; cbn [negb].
  2: { intros Hcall; simplify_eq; repeat split; auto; discriminate. }
  apply bool_decide_eq_true in Hi.
  repeat case_match; intros Hcall; simplify_eq; repeat split; auto; discriminate.
Qed.

Definition rejection (b' : Builder) (s : State) : Prop :=
  state b' = s /\ exists c, peer_credentials b' = Some c /\
                   is_peer_valid (authenticator b') c = (authenticator b', false).

Lemma received_server_handshake1_effect now m (b b' : Builder) r :
  received_server_handshake1 overflow_checks now m b = (b', r) ->
  (result_ok r = Some true -> state b' = ReceivedServerHandshake1 /\ is_some (peer_credentials b') = true) /\
  (result_ok r = Some false ->
     (state b' = state b /\ peer_credentials b' = peer_credentials b) \/ rejection b' (state b)).
Proof.
  unfold received_server_handshake1.
  repeat case_match; intros Hcall; simplify_eq; cbn [result_ok];
    split; intros Hr; try discriminate; auto.
  match goal with Hn : negb ?x = true |- _ => destruct x; [discriminate |] end.
  match goal with
  | Hv : is_peer_valid _ _ = (?a', false) |- _ =>
      pose proof (is_peer_valid_reject_unchanged _ _ _ Hv); subst a'
  end.
  right. split; [reflexivity |]. eexists; split; [reflexivity | eassumption].
Qed.

Lemma received_client_handshake2_effect m (b b' : Builder) r :
  received_client_handshake2 m b = (b', r) ->
  (result_ok r = Some true -> state b' = DataTransfer /\ is_some (peer_credentials b') = true) /\
  (result_ok r = Some false ->
     (state b' = state b /\ peer_credentials b' = peer_credentials b) \/ rejection b' (state b)).
Proof.
  unfold received_client_handshake2.
  destruct (bool_decide (state b = SentServerHandshake1)) eqn:Hi; cbn [negb].
  2: { intros Hcall; simplify_eq; split; intros Hr; try discriminate; auto. }
  repeat case_match; intros Hcall; simplify_eq; cbn [result_ok];
    split; intros Hr; try discriminate; auto.
  match goal with Hn : negb ?x = true |- _ => destruct x; [discriminate |] end.
  match goal with
  | Hv : is_peer_valid _ _ = (?a', false) |- _ =>
      pose proof (is_peer_valid_reject_unchanged _ _ _ Hv); subst a'
  end.
  right. split; [reflexivity |]. eexists; split; [reflexivity | eassumption].
Qed.

(** The state a call leaves when it returns [Ok]. *)
Definition after_ok (c : HandshakeCall) (s : State) : State :=
  match c with
  | CallSentClientHandshake1 => SentClientHandshake1
  | CallReceivedServerHandshake1 _ _ => ReceivedServerHandshake1
  | CallSentClientHandshake2 => DataTransfer
  | CallReceivedClientHandshake1 _ _ => ReceivedClientHandshake1
  | CallSentServerHandshake1 => SentServerHandshake1
  | CallReceivedClientHandshake2 _ => DataTransfer
  | _ => s
  end.

(** The states in which the handshake driver issues each call. *)
Definition driver_allows (c : HandshakeCall) (s : State) : Prop :=
  match c with
  | CallSentClientHandshake1 | CallSentServerHandshake1 => credentials_state s = false
  | CallSentClientHandshake2 => credentials_state s = true
  | CallReceivedServerHandshake1 _ _ => s = SentClientHandshake1
  | CallReceivedClientHandshake2 _ => s = SentServerHandshake1
  | _ => True
  end.

Fixpoint script_ok (cs : list HandshakeCall) (s : State) : Prop :=
  match cs with
  | [] => True
  | c :: cs' => driver_allows c s /\ script_ok cs' (after_ok c s)
  end.

Lemma credentials_invariant_same (b b' : Builder) :
  state b' = state b -> peer_credentials b' = peer_credentials b ->
  credentials_invariant b' = credentials_invariant b.
Proof. intros Hs Hc. unfold credentials_invariant. rewrite Hs, Hc. reflexivity. Qed.

Lemma rejection_rejected (b' : Builder) s :
  (s = SentClientHandshake1 \/ s = SentServerHandshake1) -> rejection b' s -> rejected_credentials b'.
Proof. intros Hs [Hst Hc]. split; [subst; exact Hs | exact Hc]. Qed.

Lemma exec_call_good (c : HandshakeCall) (b b' : Builder) (ok : bool) :
  credentials_invariant b = true -> driver_allows c (state b) ->
  exec_call overflow_checks c b = Some (b', ok) ->
  (ok = true -> credentials_invariant b' = true /\ state b' = after_ok c (state b)) /\
  (ok = false -> credentials_invariant b' = true \/ rejected_credentials b').
Proof.
  intros Hg Ha. destruct c; cbn [exec_call driver_allows after_ok] in *.
  - destruct (client_handshake1 b) as [b1 r] eqn:E.
    apply client_handshake1_keeps in E as [Es Ec]. cbn [fst snd].
    destruct (result_ok r) as [o|]; [|discriminate]. intros He; injection He as <- <-.
    rewrite (credentials_invariant_same _ _ Es Ec). auto.
  - intros He; injection He as <- <-. split; [|discriminate]. intros _.
    unfold credentials_invariant in *. cbn. rewrite Ha in Hg. cbn in Hg.
    apply Bool.eqb_prop in Hg. rewrite Hg. auto.
  - destruct (received_server_handshake1 overflow_checks now_secs message b) as [b1 r] eqn:E.
    apply received_server_handshake1_effect in E as [Eok Eerr]. cbn [fst snd].
    destruct (result_ok r) as [[|]|] eqn:Er; [| |discriminate]; intros He; injection He as <- <-.
    + destruct (Eok eq_refl) as [Es Ec]. split; [|discriminate]. intros _.
      unfold credentials_invariant. rewrite Es, Ec. auto.
    + split; [discriminate |]. intros _.
      destruct (Eerr eq_refl) as [[Es Ec] | Hrej].
      * left. rewrite (credentials_invariant_same _ _ Es Ec). exact Hg.
      * right. apply (rejection_rejected _ (state b)); [left; exact Ha | exact Hrej].
  - destruct (client_handshake2 b) as [b1 r] eqn:E.
    apply client_handshake2_keeps in E as [Es Ec]. cbn [fst snd].
    destruct (result_ok r) as [o|]; [|discriminate]. intros He; injection He as <- <-.
    rewrite (credentials_invariant_same _ _ Es Ec). auto.
  - intros He; injection He as <- <-. split; [|discriminate]. intros _.
    unfold credentials_invariant in *. cbn. rewrite Ha in Hg. cbn in Hg.
    destruct (peer_credentials b); [auto | discriminate].
  - destruct (received_client_handshake1 now_secs message b) as [b1 r] eqn:E.
    apply received_client_handshake1_effect in E as [Ec [Es Eok]]. cbn [fst snd].
    destruct (result_ok r) as [[|]|] eqn:Er; [| |discriminate]; intros He; injection He as <- <-.
    + destruct (Eok eq_refl) as [Hi Es']. split; [|discriminate]. intros _.
      unfold credentials_invariant in *. rewrite Ec, Es'. rewrite Hi in Hg. auto.
    + split; [discriminate |]. intros _. left.
      destruct Es as [Es | [Hi Es]].
      * rewrite (credentials_invariant_same _ _ Es Ec). exact Hg.
      * unfold credentials_invariant in *. rewrite Ec, Es. rewrite Hi in Hg. exact Hg.
  - intros He; injection He as <- <-. split; [|discriminate]. intros _.
    unfold credentials_invariant in *. cbn. rewrite Ha in Hg. cbn in Hg.
    apply Bool.eqb_prop in Hg. rewrite Hg. auto.
  - destruct (received_client_handshake2 message b) as [b1 r] eqn:E.
    apply received_client_handshake2_effect in E as [Eok Eerr]. cbn [fst snd].
    destruct (result_ok r) as [[|]|] eqn:Er; [| |discriminate]; intros He; injection He as <- <-.
    + destruct (Eok eq_refl) as [Es Ec]. split; [|discriminate]. intros _.
      unfold credentials_invariant. rewrite Es, Ec. auto.
    + split; [discriminate |]. intros _.
      destruct (Eerr eq_refl) as [[Es Ec] | Hrej].
      * left. rewrite (credentials_invariant_same _ _ Es Ec). exact Hg.
      * right. apply (rejection_rejected _ (state b)); [right; exact Ha | exact Hrej].
  - destruct (into_transport_mode b) as [b1| |] eqn:E; try discriminate.
    apply into_transport_mode_keeps in E as [Es Ec].
    intros He; injection He as <- <-.
    rewrite (credentials_invariant_same _ _ Es Ec). split; [auto | discriminate].
  - intros He; injection He as <- <-. split; [|discriminate]. intros _.
    unfold credentials_invariant in *. cbn. auto.
Qed.

Lemma run_calls_good (cs : list HandshakeCall) : forall (b : Builder),
  credentials_invariant b = true -> script_ok cs (state b) ->
  match run_calls overflow_checks cs b with
  | None => True
  | Some (b', ok) => credentials_invariant b' = true \/ (ok = false /\ rejected_credentials b')
  end.
Proof.
  induction cs as [|c cs IH]; intros b Hg Hs; cbn [run_calls].
  - left. exact Hg.
  - destruct Hs as [Ha Hs].
    destruct (exec_call overflow_checks c b) as [[b1 [|]]|] eqn:E; [| | exact I];
      pose proof (exec_call_good c b b1 _ Hg Ha E) as [Ht Hf].
    + destruct (Ht eq_refl) as [Hg1 Hs1]. apply IH; [exact Hg1 |]. rewrite Hs1. exact Hs.
    + destruct (Hf eq_refl) as [G | R]; [left; exact G | right; split; [reflexivity | exact R]].
Qed.

Lemma script_ok_firstn (cs : list HandshakeCall) : forall s k,
  script_ok cs s -> script_ok (firstn k cs) s.
Proof.
  induction cs as [|c cs IH]; intros s k Hs; destruct k as [|k]; cbn; auto.
  destruct Hs as [Ha Hs]. split; [exact Ha | apply IH; exact Hs].
Qed.

(** C3 (amended): along the builder calls of a handshake from a fresh
    builder, every state a call leaves without panicking has
    [peer_credentials] present iff [state] is [ReceivedServerHandshake1],
    [DataTransfer] or [Disconnected], except the state left by an
    authenticator rejection in [received_server_handshake1] or
    [received_client_handshake2]: there the rejected peer's credentials
    are stored while [state] is still [SentClientHandshake1] or
    [SentServerHandshake1]. *)
Theorem handshake_credentials_invariant
    (cfg : SessionConfig) (init : bool) (b0 : Builder)
    (now_secs : Z) (msg1 msg2 msg3 : list Z) (k : nat) :
  MessageBuilder_new cfg init = Ok b0 ->
  match run_calls overflow_checks (firstn k (handshake_calls init now_secs msg1 msg2 msg3)) b0 with
  | None => True
  | Some (b, ok) => credentials_invariant b = true \/ (ok = false /\ rejected_credentials b)
  end.
Proof.
  intros Hnew.
  assert (Hb0 : state b0 = Init /\ peer_credentials b0 = None).
  { unfold MessageBuilder_new in Hnew.
    repeat case_match; simplify_eq; auto. }
  destruct Hb0 as [Hs Hc].
  apply run_calls_good.
  - unfold credentials_invariant. rewrite Hs, Hc. reflexivity.
  - apply script_ok_firstn. rewrite Hs.
    destruct init; cbn; repeat split.
Qed.

End Invariant.

(** ** Concrete runs *)

Module ToyRun.
Import ToyNoise CountingNoise.

Definition initiator_config : SessionConfig := client_config other_key.

Definition fresh_initiator : @MessageBuilder unit unit :=
  {| handshake_state := Some tt; transport_state := None; state := Init;
     additional_data := []; authenticator := Client {| peer_public_key := other_key |};
     is_initiator := true; clock_skew := 0; peer_credentials := None |}.

Definition fresh_responder : @MessageBuilder unit unit :=
  {| handshake_state := Some tt; transport_state := None; state := Init;
     additional_data := []; authenticator := Server {| server_mix_map := ∅ |};
     is_initiator := false; clock_skew := 0; peer_credentials := None |}.

(** An initiator expecting [server_key], the key the engine reports. *)
Definition waiting_initiator : @MessageBuilder unit unit :=
  {| handshake_state := Some tt; transport_state := None; state := SentClientHandshake1;
     additional_data := []; authenticator := Client {| peer_public_key := server_key |};
     is_initiator := true; clock_skew := 0; peer_credentials := None |}.

(** A 1944-byte message 2 whose authentication blob carries [t]. *)
Definition server_frame (t : Z) : list Z :=
  match AuthenticateMessage_to_vec {| ad := []; unix_time := t |} with
  | Ok b => b ++ repeat 0 (NOISE_HANDSHAKE_MESSAGE2_SIZE - 260)
  | _ => []
  end.

Definition rejected_builder : @MessageBuilder unit unit :=
  fst (received_server_handshake1 false 0 (server_frame 0)
         (sent_client_handshake1 fresh_initiator)).

(** C3 (counterexample): an initiator expecting [other_key] is answered
    by a peer with [server_key]; [received_server_handshake1] rejects it
    and leaves credentials stored in state [SentClientHandshake1]. *)
Lemma credentials_kept_after_rejection :
  ~ (forall b : @MessageBuilder unit unit, reachable false b -> credentials_invariant b = true).
Proof.
  intros H.
  assert (R : reachable false rejected_builder).
  { apply (reachable_call false (CallReceivedServerHandshake1 0 (server_frame 0))
             (sent_client_handshake1 fresh_initiator) rejected_builder false).
    - apply (reachable_call false CallSentClientHandshake1 fresh_initiator _ true).
      + apply (reachable_new false initiator_config true). reflexivity.
      + reflexivity.
    - vm_compute. reflexivity. }
  apply H in R. vm_compute in R. discriminate.
Qed.

(** An initiator, on the counting engine, expecting [other_key]. *)
Definition counting_fresh : @MessageBuilder nat unit :=
  {| handshake_state := Some 0%nat; transport_state := None; state := Init;
     additional_data := []; authenticator := Client {| peer_public_key := other_key |};
     is_initiator := true; clock_skew := 0; peer_credentials := None |}.

(** The same initiator after message 2 from a peer with [server_key]:
    rejected, credentials stored, still in [SentClientHandshake1]. *)
Definition counting_rejected : @MessageBuilder nat unit :=
  {| handshake_state := Some 2%nat; transport_state := None; state := SentClientHandshake1;
     additional_data := []; authenticator := Client {| peer_public_key := other_key |};
     is_initiator := true; clock_skew := 0;
     peer_credentials := Some {| additional_data_of := []; public_key := server_key |} |}.

Lemma handshake_credentials_invariant_witness :
  MessageBuilder_new initiator_config true = Ok counting_fresh /\
  run_calls false (firstn 3 (handshake_calls true 0 [] (server_frame 0) [])) counting_fresh
    = Some (counting_rejected, false) /\
  credentials_invariant counting_rejected = false /\
  (credentials_invariant counting_rejected = true \/
   (false = false /\ rejected_credentials counting_rejected)).
Proof.
  assert (R : run_calls false (firstn 3 (handshake_calls true 0 [] (server_frame 0) [])) counting_fresh
                = Some (counting_rejected, false)) by (vm_compute; reflexivity).
  split; [reflexivity | split; [exact R | split; [vm_compute; reflexivity |]]].
  pose proof (handshake_credentials_invariant false initiator_config true counting_fresh
                0 [] (server_frame 0) [] 3 eq_refl) as H.
  rewrite R in H. exact H.
Defined.

Definition bad_prologue_frame : list Z := 0 :: repeat 0 1600.

Lemma received_client_handshake1_prologue_witness :
  length bad_prologue_frame = NOISE_HANDSHAKE_MESSAGE1_SIZE /\ state fresh_responder = Init /\
  received_client_handshake1 0 bad_prologue_frame fresh_responder
    = (fresh_responder, Err PrologueMismatchError).
Proof.
  assert (Hl : length bad_prologue_frame = NOISE_HANDSHAKE_MESSAGE1_SIZE) by (vm_compute; reflexivity).
  split; [exact Hl | split; [reflexivity |]].
  apply (received_client_handshake1_prologue 0 bad_prologue_frame fresh_responder Hl eq_refl).
  discriminate.
Defined.

(** C9 (code bug): with overflow checks on, a peer clock at 5 s
    against a local clock at 3 s makes [received_server_handshake1]
    panic on the [u32] subtraction. *)
Lemma clock_skew_underflow_panics :
  snd (received_server_handshake1 true 3 (server_frame 5) waiting_initiator) = Panic.
Proof. vm_compute. reflexivity. Qed.

Lemma received_server_handshake1_clock_skew_witness :
  snd (received_server_handshake1 false 3 (server_frame 5) waiting_initiator) = Ok tt /\
  clock_skew (fst (received_server_handshake1 false 3 (server_frame 5) waiting_initiator))
    = (as_u32 3 - 5) mod 2 ^ 32.
Proof.
  exact (proj1 (@received_server_handshake1_clock_skew unit unit toy_engine 3 (server_frame 5) waiting_initiator
           tt tt (firstn AUTH_MESSAGE_SIZE (server_frame 5)) {| ad := []; unix_time := 5 |}
           server_key (Client {| peer_public_key := server_key |})
           eq_refl ltac:(vm_compute; reflexivity) ltac:(vm_compute; reflexivity)
           ltac:(simpl; lia) eq_refl ltac:(vm_compute; reflexivity) ltac:(vm_compute; reflexivity))).
Defined.

(** A transport-phase session. *)
Definition server_credentials_toy : PeerCredentials :=
  {| additional_data_of := []; public_key := server_key |}.

Definition transport_session (initiator : bool) (incoming : list Z) : @Session unit unit :=
  {| reader_tcp_stream := Some incoming; writer_tcp_stream := Some [];
     session_is_initiator := initiator; handshake_builder := None;
     transport_builder := Some {| handshake_state := None; transport_state := Some tt;
                                  state := DataTransfer; additional_data := [];
                                  authenticator := Client {| peer_public_key := server_key |};
                                  is_initiator := initiator; clock_skew := 0;
                                  peer_credentials := Some server_credentials_toy |} |}.

(** A codec whose every command encodes to 1048561 bytes. *)
Definition big_to_vec (_ : Command) : list Z := repeat 0 1048561.

Lemma send_command_too_large_witness :
  (MAX_MSG_LEN < MAC_LEN + length (big_to_vec NoOp))%nat /\
  send_command big_to_vec NoOp (transport_session true [])
    = (transport_session true [], Err InvalidMessageSize).
Proof.
  assert (H : (MAX_MSG_LEN < MAC_LEN + length (big_to_vec NoOp))%nat)
    by (apply Nat.ltb_lt; vm_compute; reflexivity).
  split; [exact H |].
  exact (@send_command_too_large unit unit toy_engine big_to_vec NoOp (transport_session true []) H).
Defined.

(** One framed [NoOp]: header [24] with its tag, then the 8-byte body
    with its tag. *)
Definition noop_frame : list Z :=
  ([0; 0; 0; 24] ++ repeat 0 16) ++ (repeat 0 8 ++ repeat 0 16).

Lemma finalize_handshake_checks_noop_witness :
  session_is_initiator (transport_session true noop_frame) = true /\
  finalize_handshake noop_to_vec noop_from_bytes (transport_session true noop_frame)
    = (fst (recv_command noop_from_bytes (transport_session true noop_frame)), Ok tt).
Proof.
  split; [reflexivity |].
  exact (proj1 (proj1 (@finalize_handshake_checks_noop unit unit toy_engine noop_to_vec noop_from_bytes
                         (transport_session true noop_frame))
                  eq_refl _ NoOp ltac:(vm_compute; reflexivity))).
Defined.

End ToyRun.

(** ** Further properties of the code *)

Lemma testbit_byte_shiftr (v k j : Z) :
  0 <= k ->
  Z.testbit (Z.land (Z.shiftr v k) 255) j = (0 <=? j) && (j <? 8) && Z.testbit v (j + k).
Proof.
  intros Hk. change 255 with (Z.ones 8).
  destruct (Z.leb_spec 0 j); [| rewrite !Z.testbit_neg_r by lia; reflexivity].
  rewrite Z.land_ones by lia.
  destruct (Z.ltb_spec j 8).
  - rewrite Z.mod_pow2_bits_low by lia. rewrite Z.shiftr_spec by lia. reflexivity.
  - rewrite Z.mod_pow2_bits_high by lia. reflexivity.
Qed.

Lemma testbit_byte (v j : Z) :
  Z.testbit (Z.land v 255) j = (0 <=? j) && (j <? 8) && Z.testbit v j.
Proof.
  rewrite <- (Z.shiftr_0_r v) at 1. rewrite testbit_byte_shiftr by lia.
  rewrite Z.add_0_r. reflexivity.
Qed.

Lemma read_u32_write_u32 (v : Z) :
  0 <= v < 2 ^ 32 -> read_u32 (write_u32 v) = Some v.
Proof.
  intros Hv. unfold write_u32, read_u32. f_equal.
  apply Z.bits_inj'. intros i Hi.
  rewrite !Z.lor_spec.
  rewrite !Z.shiftl_spec by lia.
  rewrite !testbit_byte_shiftr by lia.
  rewrite testbit_byte.
  assert (Hhi : forall j, 32 <= j -> Z.testbit v j = false).
  { intros j Hj. rewrite <- (Z.mod_small v (2 ^ 32)) by lia.
    apply Z.mod_pow2_bits_high. lia. }
  destruct (Z.ltb_spec i 8); [|destruct (Z.ltb_spec i 16); [|destruct (Z.ltb_spec i 24); [|destruct (Z.ltb_spec i 32)]]];
  repeat match goal with
  | |- context [(0 <=? ?x)] => destruct (Z.leb_spec 0 x)
  | |- context [(?x <? 8)] => destruct (Z.ltb_spec x 8)
  end; simpl; try lia;
  repeat match goal with |- context [?a + ?b] => progress (replace (a + b) with i by lia) end;
  try rewrite orb_false_r; try reflexivity;
  rewrite ?Hhi by lia; reflexivity.
Qed.

Lemma read_u32_write_u32_app (v : Z) (r : list Z) :
  0 <= v < 2 ^ 32 -> read_u32 (write_u32 v ++ r) = Some v.
Proof. intros Hv. rewrite <- (read_u32_write_u32 v Hv). reflexivity. Qed.

(** X1: an [AuthenticateMessage] with at most 255 bytes of additional
    data and a [u32] time, encoded by [to_vec] and placed in the
    264-byte buffer the handshake reads it into, decodes by [from_bytes]
    to the same message. *)
Theorem AuthenticateMessage_buffer_round_trip (m : AuthenticateMessage) :
  (length (ad m) <= MAX_ADDITIONAL_DATA_SIZE)%nat -> 0 <= unix_time m < 2 ^ 32 ->
  exists b, AuthenticateMessage_to_vec m = Ok b /\
            AuthenticateMessage_from_bytes (buffer_after AUTH_MESSAGE_SIZE b) = Ok m.
Proof.
  destruct m as [a t]; cbn [ad unix_time]. intros Hlen Ht.
  set (pad := firstn (length (repeat 0 MAX_ADDITIONAL_DATA_SIZE) - length a)
                     (repeat 0 MAX_ADDITIONAL_DATA_SIZE)).
  assert (Hpad : length pad = (MAX_ADDITIONAL_DATA_SIZE - length a)%nat).
  { unfold pad. rewrite length_firstn, repeat_length. lia. }
  assert (Hw : length (write_u32 t) = 4%nat) by reflexivity.
  set (pre := [Z.of_nat (length a) mod 256] ++ a ++ pad).
  assert (Hpre : length pre = 256%nat).
  { unfold pre. rewrite !length_app, Hpad. simpl. unfold MAX_ADDITIONAL_DATA_SIZE in *. lia. }
  exists (pre ++ write_u32 t). split.
  { unfold AuthenticateMessage_to_vec. cbn [ad unix_time].
    destruct (Nat.ltb_spec MAX_ADDITIONAL_DATA_SIZE (length a)); [lia |].
    unfold pre, pad. rewrite <- !app_assoc. reflexivity. }
  unfold buffer_after.
  assert (Hl : length (pre ++ write_u32 t) = 260%nat) by (rewrite length_app, Hpre, Hw; reflexivity).
  rewrite Hl. change (AUTH_MESSAGE_SIZE - 260)%nat with 4%nat.
  set (buf := (pre ++ write_u32 t) ++ repeat 0 4).
  assert (Hbuf : length buf = AUTH_MESSAGE_SIZE)
    by (unfold buf; rewrite length_app, Hl, repeat_length; reflexivity).
  unfold AuthenticateMessage_from_bytes. rewrite Hbuf, Nat.eqb_refl. cbv [negb].
  assert (Hhd : Z.of_nat (length a) mod 256 = Z.of_nat (length a))
    by (apply Z.mod_small; unfold MAX_ADDITIONAL_DATA_SIZE in *; lia).
  change (hd 0 buf) with (Z.of_nat (length a) mod 256).
  rewrite Hhd, Nat2Z.id.
  destruct (Nat.ltb_spec AUTH_MESSAGE_SIZE (length a + 1));
    [unfold AUTH_MESSAGE_SIZE, MAX_ADDITIONAL_DATA_SIZE in *; lia |].
  unfold buf. rewrite <- app_assoc.
  change (1 + MAX_ADDITIONAL_DATA_SIZE)%nat with 256%nat. rewrite <- Hpre at 1.
  rewrite skipn_app, Nat.sub_diag, skipn_all. cbn [skipn app].
  rewrite skipn_O, read_u32_write_u32_app by exact Ht.
  change (skipn 1 (pre ++ write_u32 t ++ repeat 0 4)) with ((a ++ pad) ++ write_u32 t ++ repeat 0 4)%list.
  rewrite <- app_assoc, firstn_app, firstn_all, Nat.sub_diag. cbn [firstn]. rewrite app_nil_r.
  reflexivity.
Qed.

(** X2: on bytes, [from_bytes] never panics: a slice not of length
    [AUTH_MESSAGE_SIZE] gives [Err InvalidSize]; a slice of that length
    decodes, with the additional data the [b[0]] bytes after the length
    byte. *)
Theorem AuthenticateMessage_from_bytes_no_panic (b : list Z) :
  Forall (fun x => 0 <= x < 256) b ->
  (length b <> AUTH_MESSAGE_SIZE -> AuthenticateMessage_from_bytes b = Err InvalidSize) /\
  (length b = AUTH_MESSAGE_SIZE -> exists m,
     AuthenticateMessage_from_bytes b = Ok m /\
     ad m = firstn (Z.to_nat (hd 0 b)) (skipn 1 b) /\
     length (ad m) = Z.to_nat (hd 0 b)).
Proof.
  intros Hbytes. split.
  - intros Hlen. unfold AuthenticateMessage_from_bytes.
    destruct (Nat.eqb_spec (length b) AUTH_MESSAGE_SIZE); [contradiction | reflexivity].
  - intros Hlen. unfold AuthenticateMessage_from_bytes. rewrite Hlen, Nat.eqb_refl. cbv [negb].
    destruct b as [|x rest]; [discriminate |].
    cbn [hd]. inversion Hbytes as [|? ? Hx _]; subst.
    destruct (Nat.ltb_spec AUTH_MESSAGE_SIZE (Z.to_nat x + 1));
      [unfold AUTH_MESSAGE_SIZE, MAX_ADDITIONAL_DATA_SIZE in *; lia |].
    assert (Hs : length (skipn (1 + MAX_ADDITIONAL_DATA_SIZE) (x :: rest)) = 8%nat)
      by (rewrite length_skipn, Hlen; reflexivity).
    destruct (skipn (1 + MAX_ADDITIONAL_DATA_SIZE) (x :: rest))
      as [|b0 [|b1 [|b2 [|b3 r]]]]; try discriminate.
    eexists; split; [reflexivity |]. cbn [ad]. split; [reflexivity |].
    rewrite length_firstn, length_skipn, Hlen.
    unfold AUTH_MESSAGE_SIZE, MAX_ADDITIONAL_DATA_SIZE in *; lia.
Qed.

Lemma read_exact_app {HS TS} (s : @Session HS TS) (l1 l2 : list Z) :
  reader_tcp_stream s = Some (l1 ++ l2) ->
  read_exact (length l1) s = (set_reader s (Some l2), Some l1).
Proof.
  intros Hr. unfold read_exact. rewrite Hr, length_app.
  destruct (Nat.leb_spec (length l1) (length l1 + length l2)); [|lia].
  rewrite skipn_app, Nat.sub_diag, skipn_all, firstn_app, firstn_all, Nat.sub_diag.
  rewrite skipn_O, firstn_O, app_nil_r. reflexivity.
Qed.


Lemma recv_frame {HS TS} `{!NoiseEngine HS TS} (Command_from_bytes : list Z -> option Command)
    (r : @Session HS TS) (rb : @MessageBuilder HS TS) (u u1 u2 : TS) (ct hc bc rest : list Z) :
  transport_builder r = Some rb -> transport_state rb = Some u ->
  (MAC_SIZE + length ct <= NOISE_MESSAGE_MAX_SIZE)%nat ->
  length hc = (MAC_SIZE + 4)%nat ->
  length bc = (MAC_SIZE + length ct)%nat ->
  ts_read_message u hc HEADER_SIZE = (u1, Some (write_u32 (Z.of_nat (MAC_SIZE + length ct)))) ->
  ts_read_message u1 bc NOISE_MESSAGE_MAX_SIZE = (u2, Some ct) ->
  recv_command Command_from_bytes (set_reader r (Some ((hc ++ bc) ++ rest)))
  = (set_transport_builder (set_reader r (Some rest))
       (Some (set_transport_state rb (Some (ts_rekey_incoming u2)))),
     match Command_from_bytes ct with Some c => Ok c | None => Err ReceiveCommandError end).
Proof.
  intros Hrb Hu Hsz Hlhc Hlbc Hr1 Hr2.
  unfold recv_command. cbn [reader_tcp_stream set_reader is_some negb].
  assert (Hl20 : (MAC_LEN + 4)%nat = length hc) by (rewrite Hlhc; reflexivity).
  rewrite Hl20, (read_exact_app _ hc (bc ++ rest)) by (rewrite app_assoc; reflexivity).
  cbn [transport_builder set_reader]. rewrite Hrb.
  unfold decrypt_message_header. rewrite Hu, <- Hl20.
  change (Nat.ltb (MAC_LEN + 4) NOISE_MESSAGE_HEADER_SIZE) with false. cbv iota.
  rewrite firstn_all2 by (rewrite <- Hl20; reflexivity).
  rewrite Hr1.
  change (length (write_u32 (Z.of_nat (MAC_SIZE + length ct))) =? 4)%nat with true. cbv iota.
  assert (Hmax : Z.of_nat NOISE_MESSAGE_MAX_SIZE = 65535) by (vm_compute; reflexivity).
  rewrite read_u32_write_u32 by lia.
  rewrite Nat2Z.id, <- Hlbc.
  rewrite (read_exact_app _ bc rest) by reflexivity.
  unfold decrypt_message. cbn [transport_state set_transport_state]. rewrite Hr2.
  unfold rekey_incoming. cbn [transport_state set_transport_state].
  destruct (Command_from_bytes ct); reflexivity.
Qed.

Section SendCases.
Context {HS TS : Type} `{!NoiseEngine HS TS}.
Context (Command_to_vec : Command -> list Z).

Lemma writer_set_transport_builder (s : @Session HS TS) x :
  writer_tcp_stream (set_transport_builder s x) = writer_tcp_stream s.
Proof. reflexivity. Qed.

Lemma send_command_ok (cmd : Command) (s : @Session HS TS) tb t w t1 hc t2 bc :
  transport_builder s = Some tb -> transport_state tb = Some t -> writer_tcp_stream s = Some w ->
  (MAC_LEN + length (Command_to_vec cmd) <= MAX_MSG_LEN)%nat ->
  (MAC_SIZE + length (Command_to_vec cmd) <= NOISE_MESSAGE_MAX_SIZE)%nat ->
  ts_write_message t (write_u32 (Z.of_nat (MAC_SIZE + length (Command_to_vec cmd)))) NOISE_MESSAGE_MAX_SIZE
    = (t1, Some hc) ->
  ts_write_message t1 (Command_to_vec cmd) NOISE_MESSAGE_MAX_SIZE = (t2, Some bc) ->
  send_command Command_to_vec cmd s
    = (set_writer (set_transport_builder s
         (Some (set_transport_state (set_transport_state tb (Some t2)) (Some (ts_rekey_outgoing t2)))))
         (Some (w ++ hc ++ bc)), Ok tt).
Proof.
  intros Htb Ht Hw Hm Hn Hw1 Hw2. unfold send_command.
  destruct (Nat.ltb_spec MAX_MSG_LEN (MAC_LEN + length (Command_to_vec cmd))); [lia |].
  rewrite Htb. unfold encrypt_message.
  destruct (Nat.ltb_spec NOISE_MESSAGE_MAX_SIZE (MAC_SIZE + length (Command_to_vec cmd))); [lia |].
  rewrite Ht, Hw1, Hw2. unfold rekey_outgoing. cbn [transport_state set_transport_state].
  rewrite writer_set_transport_builder, Hw. reflexivity.
Qed.

Lemma send_command_over_max (cmd : Command) (s : @Session HS TS) :
  (MAX_MSG_LEN < MAC_LEN + length (Command_to_vec cmd))%nat ->
  send_command Command_to_vec cmd s = (s, Err InvalidMessageSize).
Proof.
  intros H. unfold send_command.
  destruct (Nat.ltb_spec MAX_MSG_LEN (MAC_LEN + length (Command_to_vec cmd))); [reflexivity | lia].
Qed.

Lemma send_command_over_noise_max (cmd : Command) (s : @Session HS TS) tb :
  transport_builder s = Some tb ->
  (NOISE_MESSAGE_MAX_SIZE < MAC_SIZE + length (Command_to_vec cmd))%nat ->
  send_command Command_to_vec cmd s = (s, Err InvalidMessageSize).
Proof.
  intros Htb H. unfold send_command.
  destruct (Nat.ltb_spec MAX_MSG_LEN (MAC_LEN + length (Command_to_vec cmd))); [reflexivity |].
  rewrite Htb. unfold encrypt_message.
  destruct (Nat.ltb_spec NOISE_MESSAGE_MAX_SIZE (MAC_SIZE + length (Command_to_vec cmd))); [| lia].
  rewrite <- Htb. destruct s; reflexivity.
Qed.

Lemma send_command_header_fail (cmd : Command) (s : @Session HS TS) tb t t1 :
  transport_builder s = Some tb -> transport_state tb = Some t ->
  (MAC_LEN + length (Command_to_vec cmd) <= MAX_MSG_LEN)%nat ->
  (MAC_SIZE + length (Command_to_vec cmd) <= NOISE_MESSAGE_MAX_SIZE)%nat ->
  ts_write_message t (write_u32 (Z.of_nat (MAC_SIZE + length (Command_to_vec cmd)))) NOISE_MESSAGE_MAX_SIZE
    = (t1, None) ->
  snd (send_command Command_to_vec cmd s) = Err EncryptFail.
Proof.
  intros Htb Ht Hm Hn Hw1. unfold send_command.
  destruct (Nat.ltb_spec MAX_MSG_LEN (MAC_LEN + length (Command_to_vec cmd))); [lia |].
  rewrite Htb. unfold encrypt_message.
  destruct (Nat.ltb_spec NOISE_MESSAGE_MAX_SIZE (MAC_SIZE + length (Command_to_vec cmd))); [lia |].
  rewrite Ht, Hw1. reflexivity.
Qed.

Lemma send_command_body_fail (cmd : Command) (s : @Session HS TS) tb t t1 hc t2 :
  transport_builder s = Some tb -> transport_state tb = Some t ->
  (MAC_LEN + length (Command_to_vec cmd) <= MAX_MSG_LEN)%nat ->
  (MAC_SIZE + length (Command_to_vec cmd) <= NOISE_MESSAGE_MAX_SIZE)%nat ->
  ts_write_message t (write_u32 (Z.of_nat (MAC_SIZE + length (Command_to_vec cmd)))) NOISE_MESSAGE_MAX_SIZE
    = (t1, Some hc) ->
  ts_write_message t1 (Command_to_vec cmd) NOISE_MESSAGE_MAX_SIZE = (t2, None) ->
  snd (send_command Command_to_vec cmd s) = Err EncryptFail.
Proof.
  intros Htb Ht Hm Hn Hw1 Hw2. unfold send_command.
  destruct (Nat.ltb_spec MAX_MSG_LEN (MAC_LEN + length (Command_to_vec cmd))); [lia |].
  rewrite Htb. unfold encrypt_message.
  destruct (Nat.ltb_spec NOISE_MESSAGE_MAX_SIZE (MAC_SIZE + length (Command_to_vec cmd))); [lia |].
  rewrite Ht, Hw1, Hw2. reflexivity.
Qed.

End SendCases.

Section TransportPair.
Context {HS TS : Type} `{!NoiseEngine HS TS}.
Variable paired : TS -> TS -> Prop.
Hypothesis write_read : forall t u p t' c,
  paired t u -> ts_write_message t p NOISE_MESSAGE_MAX_SIZE = (t', Some c) ->
  length c = (MAC_SIZE + length p)%nat /\
  forall cap, (length p <= cap)%nat ->
    exists u', ts_read_message u c cap = (u', Some p) /\ paired t' u'.
Hypothesis rekey_paired : forall t u,
  paired t u -> paired (ts_rekey_outgoing t) (ts_rekey_incoming u).
Context (Command_to_vec : Command -> list Z)
        (Command_from_bytes : list Z -> option Command).

(** X4: over transport states that a [write_message] followed by
    [read_message] keeps paired (and both rekeys too), a command sent by
    [send_command] appends one frame to the writer; [recv_command] on a
    stream starting with that frame consumes exactly it, returns what
    [Command::from_bytes] makes of the encoding, and leaves both
    transport states paired. *)
Theorem send_recv_command (cmd : Command) (s r s' : @Session HS TS)
    (tb rb : @MessageBuilder HS TS) (t u : TS) (w : list Z) :
  transport_builder s = Some tb -> transport_state tb = Some t ->
  transport_builder r = Some rb -> transport_state rb = Some u -> paired t u ->
  writer_tcp_stream s = Some w ->
  send_command Command_to_vec cmd s = (s', Ok tt) ->
  exists frame, writer_tcp_stream s' = Some (w ++ frame) /\
  forall rest, exists r',
    recv_command Command_from_bytes (set_reader r (Some (frame ++ rest)))
      = (r', match Command_from_bytes (Command_to_vec cmd) with
             | Some c => Ok c
             | None => Err ReceiveCommandError
             end) /\
    reader_tcp_stream r' = Some rest /\
    exists tb' rb' t' u', transport_builder s' = Some tb' /\ transport_state tb' = Some t' /\
      transport_builder r' = Some rb' /\ transport_state rb' = Some u' /\ paired t' u'.
Proof.
  intros Htb Ht Hrb Hu Hp Hw Hsend.
  set (ct := Command_to_vec cmd) in *.
  destruct (Nat.leb_spec (MAC_LEN + length ct) MAX_MSG_LEN) as [Hm | Hm]; cycle 1.
  { rewrite (send_command_over_max Command_to_vec cmd s Hm) in Hsend. discriminate. }
  destruct (Nat.leb_spec (MAC_SIZE + length ct) NOISE_MESSAGE_MAX_SIZE) as [Hsz | Hsz]; cycle 1.
  { rewrite (send_command_over_noise_max Command_to_vec cmd s tb Htb Hsz) in Hsend. discriminate. }
  destruct (ts_write_message t (write_u32 (Z.of_nat (MAC_SIZE + length ct))) NOISE_MESSAGE_MAX_SIZE)
    as [t1 [hc|]] eqn:Hw1; cycle 1.
  { pose proof (send_command_header_fail Command_to_vec cmd s tb t t1 Htb Ht Hm Hsz Hw1) as E.
    rewrite Hsend in E. discriminate. }
  destruct (ts_write_message t1 ct NOISE_MESSAGE_MAX_SIZE) as [t2 [bc|]] eqn:Hw2; cycle 1.
  { pose proof (send_command_body_fail Command_to_vec cmd s tb t t1 hc t2 Htb Ht Hm Hsz Hw1 Hw2) as E.
    rewrite Hsend in E. discriminate. }
  rewrite (send_command_ok Command_to_vec cmd s tb t w t1 hc t2 bc Htb Ht Hw Hm Hsz Hw1 Hw2) in Hsend.
  injection Hsend as <-.
  destruct (write_read t u _ t1 hc Hp Hw1) as [Hlhc Hrd1].
  destruct (Hrd1 HEADER_SIZE) as [u1 [Hr1 Hp1]]; [reflexivity |].
  destruct (write_read t1 u1 ct t2 bc Hp1 Hw2) as [Hlbc Hrd2].
  destruct (Hrd2 NOISE_MESSAGE_MAX_SIZE) as [u2 [Hr2 Hp2]]; [unfold MAC_SIZE in Hsz; lia |].
  exists (hc ++ bc). split; [reflexivity |].
  intros rest. eexists. split; [| split].
  - apply (recv_frame Command_from_bytes r rb u u1 u2); try assumption.
  - reflexivity.
  - do 4 eexists. split; [reflexivity |]. split; [reflexivity |].
    split; [reflexivity |]. split; [reflexivity |].
    apply rekey_paired. exact Hp2.
Qed.

End TransportPair.


Section More.
Context {HS TS : Type} `{!NoiseEngine HS TS}.

(** X5: when fewer than 20 bytes remain on the stream, [recv_command]
    consumes them and returns [ReceiveIOError]; the transport builder is
    untouched. *)
Theorem recv_command_short_header (Command_from_bytes : list Z -> option Command)
    (s : @Session HS TS) (r : list Z) :
  reader_tcp_stream s = Some r -> (length r < MAC_LEN + 4)%nat ->
  recv_command Command_from_bytes s = (set_reader s (Some []), Err ReceiveIOError).
Proof.
  intros Hr Hl. unfold recv_command. rewrite Hr. cbn [is_some negb].
  unfold read_exact. rewrite Hr.
  destruct (Nat.leb_spec (MAC_LEN + 4) (length r)); [lia | reflexivity].
Qed.

(** X6: when the header decrypts to a length [v] but fewer than [v]
    bytes follow, [recv_command] returns [ReceiveIOError] with the stream
    drained and the transport state advanced past the header (no
    rekey). *)
Theorem recv_command_truncated_body (Command_from_bytes : list Z -> option Command)
    (s : @Session HS TS) (tb : @MessageBuilder HS TS) (t t1 : TS) (hc hdr rest : list Z) (v : Z) :
  reader_tcp_stream s = Some (hc ++ rest) -> length hc = (MAC_LEN + 4)%nat ->
  transport_builder s = Some tb -> transport_state tb = Some t ->
  ts_read_message t hc HEADER_SIZE = (t1, Some hdr) -> length hdr = 4%nat ->
  read_u32 hdr = Some v -> (length rest < Z.to_nat v)%nat ->
  recv_command Command_from_bytes s
    = (set_reader (set_transport_builder s (Some (set_transport_state tb (Some t1)))) (Some []),
       Err ReceiveIOError).
Proof.
  intros Hr Hlhc Htb Ht Hd Hlh Hv Hshort. unfold recv_command. rewrite Hr. cbn [is_some negb].
  rewrite <- Hlhc, (read_exact_app s hc rest Hr).
  cbn [transport_builder set_reader]. rewrite Htb. unfold decrypt_message_header. rewrite Ht.
  rewrite Hlhc. change (Nat.ltb (MAC_LEN + 4) NOISE_MESSAGE_HEADER_SIZE) with false. cbv iota.
  rewrite firstn_all2 by (rewrite Hlhc; reflexivity). rewrite Hd, Hlh. cbv iota.
  change (4 =? 4)%nat with true. cbv iota. rewrite Hv.
  unfold read_exact. cbn [reader_tcp_stream set_reader set_transport_builder].
  destruct (Nat.leb_spec (Z.to_nat v) (length rest)); [lia |]. reflexivity.
Qed.

(** X7: [is_peer_valid] leaves a Client or Server authenticator as it
    is; on a Provider it keeps both key maps and only ever sets the
    [from_client] and [from_mix] flags, never clears them. *)
Theorem is_peer_valid_authenticator (a : PeerAuthenticator) (c : PeerCredentials) :
  match a with
  | Provider st =>
      exists st', fst (is_peer_valid a c) = Provider st' /\
        mix_map st' = mix_map st /\ client_map st' = client_map st /\
        (from_client st = true -> from_client st' = true) /\
        (from_mix st = true -> from_mix st' = true)
  | _ => fst (is_peer_valid a c) = a
  end.
Proof.
  destruct a as [st|st|st]; try reflexivity. simpl.
  destruct (is_some (mix_map st !! public_key c)).
  - eexists; repeat split; auto.
  - destruct (is_some (client_map st !! public_key c)); eexists; repeat split; auto.
Qed.

(** X8: additional data longer than 255 bytes makes [client_handshake2]
    panic, and makes [received_client_handshake1] panic once message 1
    has been read. *)
Theorem oversized_additional_data_panics (b : @MessageBuilder HS TS) :
  (MAX_ADDITIONAL_DATA_SIZE < length (additional_data b))%nat ->
  (is_some (handshake_state b) = true -> snd (client_handshake2 b) = Panic) /\
  (forall now m h h' p, state b = Init -> firstn PROLOGUE_SIZE m = PROLOGUE ->
     handshake_state b = Some h ->
     hs_read_message h (skipn PROLOGUE_SIZE m) NOISE_HANDSHAKE_MESSAGE1_SIZE = (h', Some p) ->
     snd (received_client_handshake1 now m b) = Panic).
Proof.
  intros Hl. split.
  - intros Hh. unfold client_handshake2. destruct (handshake_state b); [| discriminate].
    unfold AuthenticateMessage_to_vec. cbn [ad].
    destruct (Nat.ltb_spec MAX_ADDITIONAL_DATA_SIZE (length (additional_data b))); [reflexivity | lia].
  - intros now m h h' p Hs Hp Hh Hread. unfold received_client_handshake1.
    rewrite (bool_decide_eq_true_2 _ Hs), (bool_decide_eq_true_2 _ Hp). cbn [negb].
    rewrite Hh, Hread. unfold AuthenticateMessage_to_vec.
    cbn [ad additional_data set_state set_handshake_state].
    destruct (Nat.ltb_spec MAX_ADDITIONAL_DATA_SIZE (length (additional_data b))); [reflexivity | lia].
Qed.

(** X9: whenever the Noise builder is created (for an initiator, with
    the configured peer key), [MessageBuilder::new] succeeds, whatever
    the length of the additional data: the builder is in [Init] with
    that handshake state, no transport state, no peer credentials, clock
    skew 0, and the configuration's additional data and authenticator. *)
Theorem MessageBuilder_new_fresh (cfg : SessionConfig) (init : bool) (h : HS) :
  (if init then exists pk, cfg_peer_public_key cfg = Some pk /\
                           build_initiator (cfg_authentication_key cfg) pk PROLOGUE = Some h
   else build_responder (cfg_authentication_key cfg) PROLOGUE = Some h) ->
  exists b : @MessageBuilder HS TS, MessageBuilder_new cfg init = Ok b /\
    handshake_state b = Some h /\ state b = Init /\ transport_state b = None /\
    peer_credentials b = None /\ clock_skew b = 0 /\
    additional_data b = cfg_additional_data cfg /\ authenticator b = cfg_authenticator cfg /\
    is_initiator b = init.
Proof.
  unfold MessageBuilder_new. destruct init.
  - intros (pk & Hpk & Hb). rewrite Hpk, Hb.
    eexists; repeat split; reflexivity.
  - intros Hb. rewrite Hb. eexists; repeat split; reflexivity.
Qed.

(** X10: a session made by [Session::new] has no streams and no
    transport builder: [peer_credentials], [clock_skew] and [from_client]
    panic, and so do [handshake], [recv_command] and [send_command] (of a
    command within [MAX_MSG_LEN]). *)
Theorem Session_new_unconnected (cfg : SessionConfig) (init : bool) (s : @Session HS TS) :
  Session_new cfg init = Ok s ->
  reader_tcp_stream s = None /\ writer_tcp_stream s = None /\ transport_builder s = None /\
  Session_peer_credentials s = None /\ Session_clock_skew s = None /\ Session_from_client s = None /\
  (forall ovf now, snd (Session_handshake ovf now s) = Panic) /\
  (forall f, snd (recv_command f s) = Panic) /\
  (forall f cmd, (MAC_LEN + length (f cmd) <= MAX_MSG_LEN)%nat -> snd (send_command f cmd s) = Panic).
Proof.
  unfold Session_new. intros H.
  destruct (MessageBuilder_new cfg init) as [b| |] eqn:Hb; try discriminate.
  injection H as <-.
  assert (Hc : peer_credentials b = None)
    by (unfold MessageBuilder_new in Hb; destruct init; repeat case_match; simplify_eq; reflexivity).
  repeat split; try reflexivity.
  - unfold Session_peer_credentials. cbn [handshake_builder]. exact Hc.
  - unfold Session_from_client. cbn [session_is_initiator transport_builder]. destruct init; reflexivity.
  - intros f cmd Hm. unfold send_command.
    destruct (Nat.ltb_spec MAX_MSG_LEN (MAC_LEN + length (f cmd))); [lia | reflexivity].
Qed.

(** X11: the only error a responder's [handshake] returns is
    [HandshakeIOError]; when [received_client_handshake1] on message 1,
    or [received_client_handshake2] on message 3, returns an error, the
    handshake panics. *)
Theorem Session_handshake_responder_errors (ovf : bool) (now : Z) (s : @Session HS TS)
    (f : @MessageBuilder HS TS) (r w : list Z) :
  session_is_initiator s = false -> reader_tcp_stream s = Some r ->
  writer_tcp_stream s = Some w -> handshake_builder s = Some f ->
  (forall e, snd (Session_handshake ovf now s) = Err e -> e = HandshakeIOError) /\
  (forall f1 e, (NOISE_HANDSHAKE_MESSAGE1_SIZE <= length r)%nat ->
     received_client_handshake1 now (firstn NOISE_HANDSHAKE_MESSAGE1_SIZE r) f = (f1, Err e) ->
     snd (Session_handshake ovf now s) = Panic) /\
  (forall f1 m2 f3 e,
     (NOISE_HANDSHAKE_MESSAGE1_SIZE + NOISE_HANDSHAKE_MESSAGE3_SIZE <= length r)%nat ->
     received_client_handshake1 now (firstn NOISE_HANDSHAKE_MESSAGE1_SIZE r) f = (f1, Ok m2) ->
     received_client_handshake2
       (firstn NOISE_HANDSHAKE_MESSAGE3_SIZE (skipn NOISE_HANDSHAKE_MESSAGE1_SIZE r))
       (sent_server_handshake1 f1) = (f3, Err e) ->
     snd (Session_handshake ovf now s) = Panic).
Proof.
  intros Hi Hr Hw Hf. split; [| split].
  - intros e. unfold Session_handshake. rewrite Hi.
    repeat case_match; cbn [snd]; intros Hres; congruence.
  - intros f1 e Hl H1. unfold Session_handshake. rewrite Hr, Hw, Hf, Hi.
    unfold read_exact. rewrite Hr.
    destruct (Nat.leb_spec NOISE_HANDSHAKE_MESSAGE1_SIZE (length r)); [| lia].
    cbv beta iota zeta. rewrite H1. reflexivity.
  - intros f1 m2 f3 e Hl H1 H3. unfold Session_handshake. rewrite Hr, Hw, Hf, Hi.
    unfold read_exact. rewrite Hr.
    destruct (Nat.leb_spec NOISE_HANDSHAKE_MESSAGE1_SIZE (length r)); [| lia].
    cbv beta iota zeta. rewrite H1. cbv beta iota zeta.
    unfold write_all. cbn [writer_tcp_stream set_handshake_builder set_reader].
    rewrite Hw. cbn [reader_tcp_stream set_handshake_builder set_reader set_writer].
    rewrite length_skipn.
    destruct (Nat.leb_spec NOISE_HANDSHAKE_MESSAGE3_SIZE (length r - NOISE_HANDSHAKE_MESSAGE1_SIZE));
      [| lia].
    cbv beta iota zeta. rewrite H3. reflexivity.
Qed.

(** X14: after [Session::into_transport_mode], [peer_credentials]
    panics (the handshake builder is gone) although the transport builder
    keeps the credentials; [clock_skew] and [from_client] report the
    handshake builder's skew and authenticator; the streams are kept. *)
Theorem Session_into_transport_mode_accessors (s s' : @Session HS TS) :
  Session_into_transport_mode s = Ok s' ->
  exists hb, handshake_builder s = Some hb /\
    Session_peer_credentials s' = None /\
    Session_clock_skew s' = Some (clock_skew hb) /\
    Session_from_client s' = (if session_is_initiator s then None
                              else Some (is_peer_client (authenticator hb))) /\
    option_map peer_credentials (transport_builder s') = Some (peer_credentials hb) /\
    reader_tcp_stream s' = reader_tcp_stream s /\ writer_tcp_stream s' = writer_tcp_stream s.
Proof.
  unfold Session_into_transport_mode. intros H.
  destruct (handshake_builder s) as [hb|] eqn:Hhb; [| discriminate].
  destruct (into_transport_mode hb) as [b| |] eqn:Hb; try discriminate.
  injection H as <-. exists hb.
  unfold into_transport_mode in Hb.
  destruct (handshake_state hb); [| discriminate].
  destruct (hs_into_transport_mode h); [| discriminate].
  injection Hb as <-.
  repeat split; reflexivity.
Qed.

(** X15: [close] needs a transport builder with a transport state and
    both handles; it rekeys the transport state outgoing then incoming
    and wipes the builder: clock skew 0 and additional data cleared,
    while the peer credentials, the authenticator and the state stay. *)
Theorem Session_close_effect (s : @Session HS TS) (tb' : @MessageBuilder HS TS) :
  Session_close s = Some tb' ->
  exists tb t, transport_builder s = Some tb /\ transport_state tb = Some t /\
    is_some (reader_tcp_stream s) = true /\ is_some (writer_tcp_stream s) = true /\
    transport_state tb' = Some (ts_rekey_incoming (ts_rekey_outgoing t)) /\
    clock_skew tb' = 0 /\ additional_data tb' = [] /\
    peer_credentials tb' = peer_credentials tb /\ authenticator tb' = authenticator tb /\
    state tb' = state tb.
Proof.
  unfold Session_close. intros H.
  destruct (transport_builder s) as [tb|] eqn:Htb; [| discriminate].
  unfold rekey_outgoing in H. destruct (transport_state tb) as [t|] eqn:Ht; [| discriminate].
  unfold rekey_incoming in H. cbn [transport_state set_transport_state] in H.
  destruct (reader_tcp_stream s) eqn:Hr, (writer_tcp_stream s) eqn:Hw; try discriminate.
  injection H as <-. exists tb, t. repeat split; first [exact Ht | reflexivity].
Qed.

(** X3: a command whose encoding passes the [MAX_MSG_LEN] check but
    exceeds the Noise ceiling (16 + length > 65535) is refused by
    [send_command] with [InvalidMessageSize], the session unchanged. *)
Theorem send_command_noise_ceiling (Command_to_vec : Command -> list Z) (cmd : Command)
    (s : @Session HS TS) (tb : @MessageBuilder HS TS) :
  transport_builder s = Some tb ->
  (NOISE_MESSAGE_MAX_SIZE < MAC_SIZE + length (Command_to_vec cmd))%nat ->
  send_command Command_to_vec cmd s = (s, Err InvalidMessageSize).
Proof. intros Htb Hn. exact (send_command_over_noise_max Command_to_vec cmd s tb Htb Hn). Qed.

End More.

Module ToyExtra.
Import ToyNoise ToyRun.

Definition client_frame1 : list Z := 1 :: repeat 0 1600.

Lemma AuthenticateMessage_buffer_round_trip_witness :
  (length [1; 2; 3] <= MAX_ADDITIONAL_DATA_SIZE)%nat /\ 0 <= 321 < 2 ^ 32 /\
  exists b, AuthenticateMessage_to_vec {| ad := [1; 2; 3]; unix_time := 321 |} = Ok b /\
    AuthenticateMessage_from_bytes (buffer_after AUTH_MESSAGE_SIZE b) = Ok {| ad := [1; 2; 3]; unix_time := 321 |}.
Proof.
  split; [unfold MAX_ADDITIONAL_DATA_SIZE; simpl; lia | split; [simpl; lia |]].
  apply (AuthenticateMessage_buffer_round_trip {| ad := [1; 2; 3]; unix_time := 321 |});
    unfold MAX_ADDITIONAL_DATA_SIZE; simpl; lia.
Defined.

Definition sample_auth_bytes : list Z := [3; 1; 2] ++ repeat 0 261.

Lemma AuthenticateMessage_from_bytes_no_panic_witness :
  Forall (fun x => 0 <= x < 256) sample_auth_bytes /\
  exists m, AuthenticateMessage_from_bytes sample_auth_bytes = Ok m /\
    ad m = firstn (Z.to_nat (hd 0 sample_auth_bytes)) (skipn 1 sample_auth_bytes) /\
    length (ad m) = Z.to_nat (hd 0 sample_auth_bytes).
Proof.
  assert (HF : Forall (fun x => 0 <= x < 256) sample_auth_bytes)
    by (apply (bool_decide_unpack _); vm_compute; reflexivity).
  split; [exact HF |].
  apply (proj2 (AuthenticateMessage_from_bytes_no_panic sample_auth_bytes HF)).
  vm_compute. reflexivity.
Defined.

(** A codec whose commands encode to 65520 bytes: within [MAX_MSG_LEN],
    beyond the Noise message ceiling. *)
Definition mid_to_vec (_ : Command) : list Z := repeat 0 65520.

Lemma send_command_noise_ceiling_witness :
  (MAC_LEN + length (mid_to_vec NoOp) <= MAX_MSG_LEN)%nat /\
  (NOISE_MESSAGE_MAX_SIZE < MAC_SIZE + length (mid_to_vec NoOp))%nat /\
  send_command mid_to_vec NoOp (transport_session true [])
    = (transport_session true [], Err InvalidMessageSize).
Proof.
  assert (Hn : (NOISE_MESSAGE_MAX_SIZE < MAC_SIZE + length (mid_to_vec NoOp))%nat)
    by (apply Nat.ltb_lt; vm_compute; reflexivity).
  split; [apply Nat.leb_le; vm_compute; reflexivity | split; [exact Hn |]].
  exact (@send_command_noise_ceiling unit unit toy_engine mid_to_vec NoOp
           (transport_session true []) _ eq_refl Hn).
Defined.

Lemma send_recv_command_witness :
  exists frame,
    writer_tcp_stream (fst (send_command noop_to_vec NoOp (transport_session false [])))
      = Some ([] ++ frame) /\
    forall rest, exists r',
      recv_command noop_from_bytes (set_reader (transport_session true []) (Some (frame ++ rest)))
        = (r', match noop_from_bytes (noop_to_vec NoOp) with
               | Some c => Ok c | None => Err ReceiveCommandError end) /\
      reader_tcp_stream r' = Some rest /\
      exists tb' rb' t' u',
        transport_builder (fst (send_command noop_to_vec NoOp (transport_session false []))) = Some tb' /\
        transport_state tb' = Some t' /\ transport_builder r' = Some rb' /\
        transport_state rb' = Some u' /\ (fun _ _ : unit => True) t' u'.
Proof.
  assert (WR : forall (t u : unit) p t' c, True ->
            ts_write_message t p NOISE_MESSAGE_MAX_SIZE = (t', Some c) ->
            length c = (MAC_SIZE + length p)%nat /\
            forall cap, (length p <= cap)%nat ->
              exists u', ts_read_message u c cap = (u', Some p) /\ True).
  { intros t u p t' c _ Hw.
    change (ts_write_message t p NOISE_MESSAGE_MAX_SIZE) with (t, Some (p ++ repeat 0 16)) in Hw.
    assert (Hc : c = p ++ repeat 0 16) by congruence. subst c.
    rewrite length_app, repeat_length. split; [unfold MAC_SIZE; lia |].
    intros cap Hc. exists u. split; [| exact I].
    change (ts_read_message u (p ++ repeat 0 16) cap) with
      (u, if Nat.ltb (length (p ++ repeat 0 16)) 16 then None
          else Some (firstn (Nat.min cap (length (p ++ repeat 0 16) - 16)) (p ++ repeat 0 16))).
    rewrite length_app, repeat_length.
    destruct (Nat.ltb_spec (length p + 16) 16); [lia |].
    replace (length p + 16 - 16)%nat with (length p) by lia.
    rewrite Nat.min_r by exact Hc.
    rewrite firstn_app, firstn_all, Nat.sub_diag, firstn_O, app_nil_r. reflexivity. }
  assert (HS : send_command noop_to_vec NoOp (transport_session false [])
                = (fst (send_command noop_to_vec NoOp (transport_session false [])), Ok tt))
    by (vm_compute; reflexivity).
  refine (@send_recv_command unit unit toy_engine (fun _ _ => True) WR (fun _ _ _ => I)
           noop_to_vec noop_from_bytes NoOp (transport_session false []) (transport_session true [])
           (fst (send_command noop_to_vec NoOp (transport_session false [])))
           _ _ tt tt [] _ _ _ _ I _ HS).
  all: reflexivity.
Defined.

Lemma recv_command_short_header_witness :
  (length [1; 2; 3] < MAC_LEN + 4)%nat /\
  recv_command noop_from_bytes (transport_session true [1; 2; 3])
    = (set_reader (transport_session true [1; 2; 3]) (Some []), Err ReceiveIOError).
Proof.
  split; [simpl; lia |].
  apply (@recv_command_short_header unit unit toy_engine noop_from_bytes (transport_session true [1; 2; 3]) [1; 2; 3] eq_refl).
  simpl; lia.
Defined.

(** A header announcing a 24-byte body, followed by only two bytes. *)
Definition truncated_header : list Z := [0; 0; 0; 24] ++ repeat 0 16.

Lemma recv_command_truncated_body_witness :
  (length [0; 0] < Z.to_nat 24)%nat /\
  recv_command noop_from_bytes (transport_session true (truncated_header ++ [0; 0]))
    = (set_reader (set_transport_builder (transport_session true (truncated_header ++ [0; 0]))
                     (Some (set_transport_state
                              (match transport_builder (transport_session true []) with
                               | Some tb => tb | None => fresh_initiator end) (Some tt))))
                  (Some []), Err ReceiveIOError).
Proof.
  split; [simpl; lia |].
  apply (@recv_command_truncated_body unit unit toy_engine noop_from_bytes (transport_session true (truncated_header ++ [0; 0])) _ tt tt
           truncated_header [0; 0; 0; 24] [0; 0] 24 eq_refl);
    try reflexivity; simpl; lia.
Defined.

Definition oversized_builder : @MessageBuilder unit unit :=
  {| handshake_state := Some tt; transport_state := None; state := Init;
     additional_data := repeat 1 256; authenticator := Server {| server_mix_map := ∅ |};
     is_initiator := false; clock_skew := 0; peer_credentials := None |}.

Lemma oversized_additional_data_panics_witness :
  (MAX_ADDITIONAL_DATA_SIZE < length (additional_data oversized_builder))%nat /\
  snd (client_handshake2 oversized_builder) = Panic /\
  snd (received_client_handshake1 0 client_frame1 oversized_builder) = Panic.
Proof.
  assert (Hl : (MAX_ADDITIONAL_DATA_SIZE < length (additional_data oversized_builder))%nat)
    by (vm_compute; lia).
  destruct (oversized_additional_data_panics oversized_builder Hl) as [P2 P3].
  split; [exact Hl | split].
  - exact (P2 eq_refl).
  - exact (P3 0 client_frame1 tt tt _ eq_refl eq_refl eq_refl eq_refl).
Defined.

(** A configuration with 300 bytes of additional data. *)
Definition long_config : SessionConfig :=
  {| cfg_authenticator := Client {| peer_public_key := server_key |};
     cfg_authentication_key := repeat 1 32;
     cfg_peer_public_key := Some server_key;
     cfg_additional_data := repeat 1 300 |}.

Lemma MessageBuilder_new_fresh_witness :
  (MAX_ADDITIONAL_DATA_SIZE < length (cfg_additional_data long_config))%nat /\
  exists b : @MessageBuilder unit unit, MessageBuilder_new long_config true = Ok b /\
    handshake_state b = Some tt /\ state b = Init /\ transport_state b = None /\
    peer_credentials b = None /\ clock_skew b = 0 /\
    additional_data b = cfg_additional_data long_config /\
    authenticator b = cfg_authenticator long_config /\ is_initiator b = true.
Proof.
  split; [vm_compute; lia |].
  apply (@MessageBuilder_new_fresh unit unit toy_engine long_config true tt).
  exists server_key. split; reflexivity.
Defined.

Definition new_session : @Session unit unit :=
  {| reader_tcp_stream := None; writer_tcp_stream := None; session_is_initiator := true;
     handshake_builder := Some fresh_initiator; transport_builder := None |}.

Lemma Session_new_unconnected_witness :
  Session_new initiator_config true = Ok new_session /\
  Session_peer_credentials new_session = None /\ Session_clock_skew new_session = None /\
  Session_from_client new_session = None /\
  snd (Session_handshake false 0 new_session) = Panic /\
  snd (recv_command noop_from_bytes new_session) = Panic /\
  snd (send_command noop_to_vec NoOp new_session) = Panic.
Proof.
  destruct (@Session_new_unconnected unit unit toy_engine initiator_config true new_session eq_refl)
    as (_ & _ & _ & Hc & Hk & Hf & Hh & Hr & Hs).
  split; [reflexivity |]. split; [exact Hc |]. split; [exact Hk |]. split; [exact Hf |].
  split; [exact (Hh false 0) |]. split; [exact (Hr noop_from_bytes) |].
  apply Hs. apply Nat.leb_le. vm_compute. reflexivity.
Defined.

Definition responder_on (incoming : list Z) : @Session unit unit :=
  {| reader_tcp_stream := Some incoming; writer_tcp_stream := Some [];
     session_is_initiator := false; handshake_builder := Some fresh_responder;
     transport_builder := None |}.

Lemma Session_handshake_responder_errors_witness :
  (NOISE_HANDSHAKE_MESSAGE1_SIZE <= length bad_prologue_frame)%nat /\
  received_client_handshake1 0 (firstn NOISE_HANDSHAKE_MESSAGE1_SIZE bad_prologue_frame) fresh_responder
    = (fresh_responder, Err PrologueMismatchError) /\
  snd (Session_handshake false 0 (responder_on bad_prologue_frame)) = Panic.
Proof.
  assert (Hl : (NOISE_HANDSHAKE_MESSAGE1_SIZE <= length bad_prologue_frame)%nat)
    by (apply Nat.leb_le; vm_compute; reflexivity).
  assert (H1 : received_client_handshake1 0 (firstn NOISE_HANDSHAKE_MESSAGE1_SIZE bad_prologue_frame)
                 fresh_responder = (fresh_responder, Err PrologueMismatchError))
    by (vm_compute; reflexivity).
  split; [exact Hl | split; [exact H1 |]].
  destruct (@Session_handshake_responder_errors unit unit toy_engine false 0
              (responder_on bad_prologue_frame) fresh_responder bad_prologue_frame []
              eq_refl eq_refl eq_refl eq_refl) as (_ & P2 & _).
  exact (P2 fresh_responder PrologueMismatchError Hl H1).
Defined.

(** A handshake builder at the end of a handshake with a client peer:
    credentials stored, a clock skew of 42, [from_client] set. *)
Definition provider_builder : @MessageBuilder unit unit :=
  {| handshake_state := Some tt; transport_state := None; state := DataTransfer;
     additional_data := [5];
     authenticator := Provider {| mix_map := ∅; client_map := {[ server_key := true ]};
                                  from_client := true; from_mix := false |};
     is_initiator := false; clock_skew := 42;
     peer_credentials := Some server_credentials_toy |}.

Definition handshake_session : @Session unit unit :=
  {| reader_tcp_stream := Some []; writer_tcp_stream := Some [];
     session_is_initiator := false; handshake_builder := Some provider_builder;
     transport_builder := None |}.

Lemma Session_into_transport_mode_accessors_witness :
  match Session_into_transport_mode handshake_session with
  | Ok s' =>
      Session_peer_credentials s' = None /\ Session_clock_skew s' = Some 42 /\
      Session_from_client s' = Some true /\
      option_map peer_credentials (transport_builder s') = Some (Some server_credentials_toy)
  | _ => False
  end.
Proof.
  destruct (Session_into_transport_mode handshake_session) as [s'| |] eqn:E;
    [| vm_compute in E; discriminate ..].
  destruct (@Session_into_transport_mode_accessors unit unit toy_engine handshake_session s' E)
    as (hb & Hhb & H1 & H2 & H3 & H4 & _).
  cbn in Hhb. injection Hhb as <-.
  rewrite H2, H3, H4. split; [exact H1 | repeat split; reflexivity].
Defined.

(** A transport-phase session with a clock skew of 7, two bytes of
    additional data and the peer's credentials. *)
Definition closing_session : @Session unit unit :=
  {| reader_tcp_stream := Some [1]; writer_tcp_stream := Some [2];
     session_is_initiator := true; handshake_builder := None;
     transport_builder := Some {| handshake_state := None; transport_state := Some tt;
                                  state := DataTransfer; additional_data := [1; 2];
                                  authenticator := Client {| peer_public_key := server_key |};
                                  is_initiator := true; clock_skew := 7;
                                  peer_credentials := Some server_credentials_toy |} |}.

Lemma Session_close_effect_witness :
  option_map clock_skew (transport_builder closing_session) = Some 7 /\
  option_map additional_data (transport_builder closing_session) = Some [1; 2] /\
  match Session_close closing_session with
  | Some tb' => clock_skew tb' = 0 /\ additional_data tb' = [] /\
                peer_credentials tb' = Some server_credentials_toy
  | None => False
  end.
Proof.
  split; [reflexivity | split; [reflexivity |]].
  destruct (Session_close closing_session) as [tb'|] eqn:E; [| vm_compute in E; discriminate].
  destruct (@Session_close_effect unit unit toy_engine closing_session tb' E)
    as (tb & t & Htb & _ & _ & _ & _ & H1 & H2 & H3 & _).
  cbn in Htb. injection Htb as <-.
  rewrite H1, H2, H3. repeat split; reflexivity.
Defined.

End ToyExtra.

